(** * A shallow embedding of the dependency analyzer and the code-quality
      analyzer of ai-code-debugger

    Sources: [lib/dependency-analyzer.ts] and [lib/code-quality-analyzer.ts].

    - JavaScript strings are modelled as [string], a sequence of 8-bit code
      units; arrays as [list]; the insertion-ordered [Map] of nodes as an
      association list; a [Set<string>] as a list used through membership.
    - Regular-expression literals are terms of the inductive type [regex],
      run by a backtracking matcher that follows the ECMAScript order:
      leftmost start, greedy quantifiers (lazy where written), alternatives
      from left to right, no empty iteration of a quantified group.  No
      pattern of the sources has a capturing group under [*] or [+], so the
      reset of captures between iterations is not modelled.
    - Line numbers, counts and lengths are [nat]; the brace count and the
      indentation of the body scanners, which can be negative, are [Z]; the
      similarity of two blocks is the exact fraction [matches / maxLen] in
      [Q] (for strings shorter than 2^50 characters the comparison with 0.8
      has the same outcome as on doubles).
    - The depth-first traversal of [detectCircularDependencies] mutates two
      sets and a list; they are threaded as a state.  Its recursion is
      bounded by a counter that is shown below never to run out. *)

From Stdlib Require Import String Ascii List Bool Arith Lia QArith.
Import ListNotations.
Open Scope string_scope.
Open Scope nat_scope.

Set Implicit Arguments.

(** ** JavaScript strings and arrays *)

Module Js.

Definition chr (n : nat) : ascii := ascii_of_nat n.

(** The double-quote character and the line feed, as one-character strings. *)
Definition dq : string := String (chr 34) EmptyString.
Definition nl : string := String (chr 10) EmptyString.
Definition bslash : string := String (chr 92) EmptyString.

Fixpoint take (n : nat) (s : string) : string :=
  match n, s with
  | S n', String c s' => String c (take n' s')
  | _, _ => EmptyString
  end.

Fixpoint drop (n : nat) (s : string) : string :=
  match n, s with
  | S n', String _ s' => drop n' s'
  | _, _ => s
  end.

(** [s.startsWith(p)] *)
Definition startsWith (s p : string) : bool := String.prefix p s.

(** [s.includes(p)] *)
Fixpoint includes (s p : string) : bool :=
  String.prefix p s ||
  match s with
  | EmptyString => false
  | String _ s' => includes s' p
  end.

(** [s.split(sep)] for a non-empty separator [sep].  [skip] counts the
    characters of a separator that was just recognised and is still to be
    stepped over; [cur] is the piece being accumulated. *)
Fixpoint split_go (sep s : string) (skip : nat) (cur : string) : list string :=
  match skip with
  | S n =>
      match s with
      | EmptyString => [cur]
      | String _ s' => split_go sep s' n cur
      end
  | O =>
      match s with
      | EmptyString => [cur]
      | String c s' =>
          if String.prefix sep s
          then cur :: split_go sep s' (String.length sep - 1) EmptyString
          else split_go sep s' 0 (cur ++ String c EmptyString)
      end
  end.

Definition split (sep s : string) : list string := split_go sep s 0 EmptyString.

(** [a.join(sep)] *)
Definition join (sep : string) (l : list string) : string := String.concat sep l.

(** White space and line terminators in the 8-bit range: TAB, LF, VT, FF, CR,
    SP and NBSP. *)
Definition is_space (c : ascii) : bool :=
  let n := nat_of_ascii c in
  ((9 <=? n) && (n <=? 13)) || (n =? 32) || (n =? 160).

Definition is_line_terminator (c : ascii) : bool :=
  let n := nat_of_ascii c in (n =? 10) || (n =? 13).

(** [\w] is [[A-Za-z0-9_]]. *)
Definition is_word (c : ascii) : bool :=
  let n := nat_of_ascii c in
  ((65 <=? n) && (n <=? 90)) || ((97 <=? n) && (n <=? 122)) ||
  ((48 <=? n) && (n <=? 57)) || (n =? 95).

Fixpoint trimStart (s : string) : string :=
  match s with
  | String c s' => if is_space c then trimStart s' else s
  | EmptyString => EmptyString
  end.

(** Reverse of a string, used only to trim at the right end. *)
Fixpoint rev_onto (s acc : string) : string :=
  match s with
  | EmptyString => acc
  | String c s' => rev_onto s' (String c acc)
  end.

Definition trimEnd (s : string) : string :=
  rev_onto (trimStart (rev_onto s EmptyString)) EmptyString.

(** [s.trim()] *)
Definition trim (s : string) : string := trimEnd (trimStart s).

(** [a.includes(x)] on an array of strings, also [Set.prototype.has]. *)
Definition mem (x : string) (l : list string) : bool :=
  existsb (String.eqb x) l.

(** [[...new Set(a)]]: the distinct elements in order of first occurrence. *)
Fixpoint dedupe_go (seen l : list string) : list string :=
  match l with
  | [] => []
  | x :: l' => if mem x seen then dedupe_go seen l'
               else x :: dedupe_go (x :: seen) l'
  end.

Definition dedupe (l : list string) : list string := dedupe_go [] l.

(** [a.indexOf(x)], with [None] for [-1]. *)
Fixpoint indexOf (x : string) (l : list string) : option nat :=
  match l with
  | [] => None
  | y :: l' => if String.eqb y x then Some 0
               else option_map S (indexOf x l')
  end.

(** [a.slice(i, j)] for [0 <= i]. *)
Definition slice {A} (i j : nat) (l : list A) : list A :=
  firstn (j - i) (skipn i l).

End Js.

(** ** Regular expressions *)

Module Regex.
Import Js.

(** One item between the brackets of a character class. *)
Inductive class_item : Type :=
| CChar (c : ascii)            (* a literal character *)
| CRange (lo hi : ascii)       (* [lo-hi] *)
| CSpace                       (* \s *)
| CNotSpace                    (* \S *)
| CWord.                       (* \w *)

Inductive regex : Type :=
| RChar (c : ascii)            (* a literal character *)
| RSet (items : list class_item)   (* [...] ; also a lone \s or \w *)
| RNotSet (items : list class_item) (* [^...] ; also a lone \S *)
| RDot                         (* . *)
| RBol                         (* ^ *)
| REol                         (* $ *)
| RWordB                       (* \b *)
| REmpty
| RSeq (r1 r2 : regex)
| RAlt (r1 r2 : regex)         (* r1|r2 *)
| RStar (r : regex)            (* r* *)
| RLazyStar (r : regex)        (* r*? *)
| RPlus (r : regex)            (* r+ *)
| ROpt (r : regex)             (* r? *)
| RGroup (n : nat) (r : regex). (* the n-th capturing group *)

(** A literal word, character by character. *)
Fixpoint lit (s : string) : regex :=
  match s with
  | EmptyString => REmpty
  | String c EmptyString => RChar c
  | String c s' => RSeq (RChar c) (lit s')
  end.

Fixpoint rseq (l : list regex) : regex :=
  match l with
  | [] => REmpty
  | [r] => r
  | r :: l' => RSeq r (rseq l')
  end.

Fixpoint ralt (l : list regex) : regex :=
  match l with
  | [] => RNotSet []
  | [r] => r
  | r :: l' => RAlt r (ralt l')
  end.

Definition s_ : regex := RSet [CSpace].       (* \s *)
Definition S_ : regex := RNotSet [CSpace].    (* \S *)
Definition w_ : regex := RSet [CWord].        (* \w *)

Definition item_matches (c : ascii) (i : class_item) : bool :=
  match i with
  | CChar c' => Ascii.eqb c c'
  | CRange lo hi => (nat_of_ascii lo <=? nat_of_ascii c) &&
                    (nat_of_ascii c <=? nat_of_ascii hi)
  | CSpace => is_space c
  | CNotSpace => negb (is_space c)
  | CWord => is_word c
  end.

(** The matcher's state: the character before the current position (none at
    the start of the input), the input from the current position on, and the
    captures made so far (most recent first). *)
Record mstate : Type := MState {
  prev : option ascii;
  rest : string;
  caps : list (nat * string)
}.

Definition step_char (st : mstate) (p : ascii -> bool)
    (k : mstate -> option mstate) : option mstate :=
  match rest st with
  | String c s' => if p c then k (MState (Some c) s' (caps st)) else None
  | EmptyString => None
  end.

Definition word_before (st : mstate) : bool :=
  match prev st with Some c => is_word c | None => false end.

Definition word_after (st : mstate) : bool :=
  match rest st with String c _ => is_word c | EmptyString => false end.

Definition at_bol (multiline : bool) (st : mstate) : bool :=
  match prev st with
  | None => true
  | Some c => multiline && is_line_terminator c
  end.

Definition at_eol (multiline : bool) (st : mstate) : bool :=
  match rest st with
  | EmptyString => true
  | String c _ => multiline && is_line_terminator c
  end.

Definition consumed (st st' : mstate) : nat :=
  String.length (rest st) - String.length (rest st').

Definition or_else (a : option mstate) (b : unit -> option mstate) : option mstate :=
  match a with
  | Some x => Some x
  | None => b tt
  end.

(** The greedy loop of [r*]: [body st k] runs one iteration of [r] from
    [st] and hands the state it reaches to [k].  An iteration may not match
    the empty string (the ECMAScript rule), so there are at most as many
    iterations as input characters left; the counter [n] starts above that
    bound and does not reach zero before the input does. *)
Fixpoint star_loop (body : mstate -> (mstate -> option mstate) -> option mstate)
    (k : mstate -> option mstate) (n : nat) (st : mstate) : option mstate :=
  match n with
  | O => k st
  | S n' =>
      or_else
        (body st (fun st' => if consumed st st' =? 0 then None
                             else star_loop body k n' st'))
        (fun _ => k st)
  end.

(** The loop of [r*?]: the continuation is tried before one more iteration. *)
Fixpoint lazy_loop (body : mstate -> (mstate -> option mstate) -> option mstate)
    (k : mstate -> option mstate) (n : nat) (st : mstate) : option mstate :=
  match n with
  | O => k st
  | S n' =>
      or_else (k st)
        (fun _ => body st (fun st' => if consumed st st' =? 0 then None
                                      else lazy_loop body k n' st'))
  end.

(** Backtracking matcher in continuation-passing style: [rmatch m r st k]
    matches [r] from [st] and passes the state after the match to [k];
    [None] is failure, which lets the caller try its next choice. *)
Fixpoint rmatch (multiline : bool) (r : regex) (st : mstate)
    (k : mstate -> option mstate) {struct r} : option mstate :=
  match r with
  | RChar c => step_char st (Ascii.eqb c) k
  | RSet items => step_char st (fun c => existsb (item_matches c) items) k
  | RNotSet items => step_char st (fun c => negb (existsb (item_matches c) items)) k
  | RDot => step_char st (fun c => negb (is_line_terminator c)) k
  | RBol => if at_bol multiline st then k st else None
  | REol => if at_eol multiline st then k st else None
  | RWordB => if xorb (word_before st) (word_after st) then k st else None
  | REmpty => k st
  | RSeq r1 r2 => rmatch multiline r1 st (fun st' => rmatch multiline r2 st' k)
  | RAlt r1 r2 => or_else (rmatch multiline r1 st k) (fun _ => rmatch multiline r2 st k)
  | RStar r' =>
      star_loop (rmatch multiline r') k (S (String.length (rest st))) st
  | RLazyStar r' =>
      lazy_loop (rmatch multiline r') k (S (String.length (rest st))) st
  | RPlus r' =>
      rmatch multiline r' st
        (star_loop (rmatch multiline r') k (S (String.length (rest st))))
  | ROpt r' =>
      or_else
        (rmatch multiline r' st
           (fun st' => if consumed st st' =? 0 then None else k st'))
        (fun _ => k st)
  | RGroup n r' =>
      rmatch multiline r' st
        (fun st' => k (MState (prev st') (rest st')
                         ((n, take (consumed st st') (rest st)) :: caps st')))
  end.

(** One match: where it starts, the matched text, and its captures. *)
Record rmatch_result : Type := Match {
  m_index : nat;
  m_text : string;
  m_caps : list (nat * string)
}.

(** [m[n]] for [n >= 1]; [None] stands for [undefined]. *)
Fixpoint lookup_cap (n : nat) (l : list (nat * string)) : option string :=
  match l with
  | [] => None
  | (i, s) :: l' => if i =? n then Some s else lookup_cap n l'
  end.

Definition group (n : nat) (m : rmatch_result) : option string :=
  lookup_cap n (m_caps m).

(** An attempt at the current position only. *)
Definition match_here (multiline : bool) (r : regex) (p : option ascii)
    (s : string) (idx : nat) : option rmatch_result :=
  match rmatch multiline r (MState p s []) (fun st => Some st) with
  | Some e => Some (Match idx (take (String.length s - String.length (rest e)) s) (caps e))
  | None => None
  end.

(** The first match at or after the current position: what [exec], [match]
    and [test] do on a fresh regular expression. *)
Fixpoint search_from (multiline : bool) (r : regex) (p : option ascii)
    (s : string) (idx : nat) : option rmatch_result :=
  match match_here multiline r p s idx with
  | Some m => Some m
  | None =>
      match s with
      | EmptyString => None
      | String c s' => search_from multiline r (Some c) s' (S idx)
      end
  end.

(** [s.match(r)] for a regex without the [g] flag. *)
Definition match_first (multiline : bool) (r : regex) (s : string)
  : option rmatch_result :=
  search_from multiline r None s 0.

(** [r.test(s)] *)
Definition test (multiline : bool) (r : regex) (s : string) : bool :=
  match match_first multiline r s with Some _ => true | None => false end.

(** [s.search(r)], with [None] for [-1]. *)
Definition search (multiline : bool) (r : regex) (s : string) : option nat :=
  option_map m_index (match_first multiline r s).

(** All successive matches of a regex with the [g] flag, as produced by
    [s.match(r)], [s.matchAll(r)] and by a loop
    [while ((m = r.exec(s)) !== null)].  After a match the scan resumes at its
    end ([skip] counts the characters still to step over); after an empty
    match it resumes one character further (every pattern that the sources
    run in an [exec] loop starts with a literal word, so the case does not
    arise there). *)
Fixpoint match_all_from (multiline : bool) (r : regex) (p : option ascii)
    (s : string) (idx skip : nat) : list rmatch_result :=
  match skip with
  | S n =>
      match s with
      | EmptyString => []
      | String c s' => match_all_from multiline r (Some c) s' (S idx) n
      end
  | O =>
      match match_here multiline r p s idx with
      | Some m =>
          m :: match s with
               | EmptyString => []
               | String c s' =>
                   match_all_from multiline r (Some c) s' (S idx)
                     (String.length (m_text m) - 1)
               end
      | None =>
          match s with
          | EmptyString => []
          | String c s' => match_all_from multiline r (Some c) s' (S idx) 0
          end
      end
  end.

Definition match_all (multiline : bool) (r : regex) (s : string)
  : list rmatch_result :=
  match_all_from multiline r None s 0 0.

(** [s.replace(r, by)] for a regex with the [g] flag and a replacement
    without [$] patterns. *)
Fixpoint replace_all_from (multiline : bool) (r : regex) (by_ : string)
    (p : option ascii) (s : string) (skip : nat) : string :=
  match skip with
  | S n =>
      match s with
      | EmptyString => EmptyString
      | String c s' => replace_all_from multiline r by_ (Some c) s' n
      end
  | O =>
      match match_here multiline r p s 0 with
      | Some m =>
          by_ ++
          match s with
          | EmptyString => EmptyString
          | String c s' =>
              match String.length (m_text m) with
              | O => String c (replace_all_from multiline r by_ (Some c) s' 0)
              | S n => replace_all_from multiline r by_ (Some c) s' n
              end
          end
      | None =>
          match s with
          | EmptyString => EmptyString
          | String c s' => String c (replace_all_from multiline r by_ (Some c) s' 0)
          end
      end
  end.

Definition replace_all (multiline : bool) (r : regex) (by_ s : string) : string :=
  replace_all_from multiline r by_ None s 0.

(** [s.replace(r, by)] for a regex without the [g] flag. *)
Definition replace_first (multiline : bool) (r : regex) (by_ s : string) : string :=
  match match_first multiline r s with
  | Some m => take (m_index m) s ++ by_ ++
              drop (m_index m + String.length (m_text m)) s
  | None => s
  end.

End Regex.

(** ** Source files, the input of both analyzers *)

Module File.

Record SourceFile : Type := mkFile {
  path : string;
  content : string;
  language : string
}.

End File.

(** ** lib/dependency-analyzer.ts *)

Module DependencyAnalyzer.
Import Js Regex.

Record DependencyNode : Type := mkNode {
  path : string;
  imports : list string;
  exports : list string;
  dependencies : list string;
  dependents : list string
}.

Record MissingDependency : Type := mkMissing {
  file : string;
  missing : string
}.

(** The [Map<string, DependencyNode>] of the graph, in insertion order. *)
Definition NodeMap : Type := list (string * DependencyNode).

Fixpoint map_get (m : NodeMap) (k : string) : option DependencyNode :=
  match m with
  | [] => None
  | (k', v) :: m' => if String.eqb k' k then Some v else map_get m' k
  end.

Definition map_has (m : NodeMap) (k : string) : bool :=
  match map_get m k with Some _ => true | None => false end.

(** [m.set(k, v)]: an existing key keeps its place, a new one goes last. *)
Fixpoint map_set (m : NodeMap) (k : string) (v : DependencyNode) : NodeMap :=
  match m with
  | [] => [(k, v)]
  | (k', v') :: m' =>
      if String.eqb k' k then (k', v) :: m' else (k', v') :: map_set m' k v
  end.

Definition map_keys (m : NodeMap) : list string := map fst m.

Record DependencyGraph : Type := mkGraph {
  nodes : NodeMap;
  circularDependencies : list (list string);
  missingDependencies : list MissingDependency;
  unusedFiles : list string
}.

(** *** Patterns

    Each pattern is given with its literal in the source, where the
    double-quote character is written [\x22] here. *)

Definition quote : regex := RSet [CChar "'"; CChar (chr 34)].       (* ['\x22] *)
Definition notQuote : regex := RNotSet [CChar "'"; CChar (chr 34)]. (* [^'\x22] *)

(** [/import\s+(?:[\w*\s{},]*\s+from\s+)?['\x22]([^'\x22]+)['\x22]/g] *)
Definition es6ImportRegex : regex :=
  rseq [lit "import"; RPlus s_;
        ROpt (rseq [RStar (RSet [CWord; CChar "*"; CSpace; CChar "{"; CChar "}"; CChar ","]);
                    RPlus s_; lit "from"; RPlus s_]);
        quote; RGroup 1 (RPlus notQuote); quote].

(** [/import\s*$$\s*['\x22]([^'\x22]+)['\x22]\s*$$/g] *)
Definition dynamicImportRegex : regex :=
  rseq [lit "import"; RStar s_; REol; REol; RStar s_;
        quote; RGroup 1 (RPlus notQuote); quote; RStar s_; REol; REol].

(** [/require\s*$$\s*['\x22]([^'\x22]+)['\x22]\s*$$/g] *)
Definition requireRegex : regex :=
  rseq [lit "require"; RStar s_; REol; REol; RStar s_;
        quote; RGroup 1 (RPlus notQuote); quote; RStar s_; REol; REol].

(** [/^(?:from\s+([\w.]+)\s+)?import\s+/gm] *)
Definition pythonImportRegex : regex :=
  rseq [RBol;
        ROpt (rseq [lit "from"; RPlus s_;
                    RGroup 1 (RPlus (RSet [CWord; CChar "."])); RPlus s_]);
        lit "import"; RPlus s_].

(** [/^import\s+([\w.]+);/gm] *)
Definition javaImportRegex : regex :=
  rseq [RBol; lit "import"; RPlus s_;
        RGroup 1 (RPlus (RSet [CWord; CChar "."])); RChar ";"].

(** [/^use\s+([\w\\]+)/gm] *)
Definition phpUseRegex : regex :=
  rseq [RBol; lit "use"; RPlus s_;
        RGroup 1 (RPlus (RSet [CWord; CChar (chr 92)]))].

(** [/require(?:_once)?\s*$$\s*['\x22]([^'\x22]+)['\x22]\s*$$/g] *)
Definition phpRequireRegex : regex :=
  rseq [lit "require"; ROpt (lit "_once"); RStar s_; REol; REol; RStar s_;
        quote; RGroup 1 (RPlus notQuote); quote; RStar s_; REol; REol].

(** The body of a loop [while ((match = re.exec(content)) !== null)
    imports.push(match[1])], for a group that takes part in every match. *)
Definition pushGroup1 (ms : list rmatch_result) : list string :=
  flat_map (fun m => match group 1 m with Some x => [x] | None => [] end) ms.

(** The same with [if (match[1])] around the push: a group that is undefined
    or empty is left out. *)
Definition pushGroup1IfTruthy (ms : list rmatch_result) : list string :=
  flat_map (fun m => match group 1 m with
                     | Some x => if String.eqb x EmptyString then [] else [x]
                     | None => []
                     end) ms.

Definition extractImports (content : string) : list string :=
  let imports :=
    (pushGroup1 (match_all false es6ImportRegex content) ++
     pushGroup1 (match_all false dynamicImportRegex content) ++
     pushGroup1 (match_all false requireRegex content) ++
     pushGroup1IfTruthy (match_all true pythonImportRegex content) ++
     pushGroup1 (match_all true javaImportRegex content) ++
     pushGroup1 (match_all true phpUseRegex content) ++
     pushGroup1 (match_all false phpRequireRegex content))%list in
  dedupe imports.

(** [/export\s+(?:const|let|var|function|class|interface|type|enum)\s+(\w+)/g] *)
Definition namedExportRegex : regex :=
  rseq [lit "export"; RPlus s_;
        ralt [lit "const"; lit "let"; lit "var"; lit "function"; lit "class";
              lit "interface"; lit "type"; lit "enum"];
        RPlus s_; RGroup 1 (RPlus w_)].

(** [/export\s+default/] *)
Definition defaultExportRegex : regex :=
  rseq [lit "export"; RPlus s_; lit "default"].

(** [/export\s+.*\s+from\s+['\x22]([^'\x22]+)['\x22]/g] *)
Definition reExportRegex : regex :=
  rseq [lit "export"; RPlus s_; RStar RDot; RPlus s_; lit "from"; RPlus s_;
        quote; RGroup 1 (RPlus notQuote); quote].

Definition extractExports (content : string) : list string :=
  pushGroup1 (match_all false namedExportRegex content) ++
  (if test false defaultExportRegex content then ["default"] else []) ++
  map (fun x => "re-export:" ++ x)
      (pushGroup1 (match_all false reExportRegex content)).

Definition isExternalDependency (importPath : string) : bool :=
  negb (startsWith importPath ".") && negb (startsWith importPath "/").

(** The normalisation loop of [resolveImportPaths]: [..] pops, [.] is
    dropped, anything else is pushed. *)
Definition normalizeParts (parts : list string) : list string :=
  fold_left
    (fun normalized part =>
       if String.eqb part ".." then removelast normalized
       else if negb (String.eqb part ".") then (normalized ++ [part])%list
       else normalized)
    parts [].

Definition possiblePaths (resolvedPath : string) : list string :=
  [ resolvedPath;
    resolvedPath ++ ".js";
    resolvedPath ++ ".jsx";
    resolvedPath ++ ".ts";
    resolvedPath ++ ".tsx";
    resolvedPath ++ ".py";
    resolvedPath ++ ".java";
    resolvedPath ++ ".php";
    resolvedPath ++ "/index.js";
    resolvedPath ++ "/index.ts";
    resolvedPath ++ "/index.tsx";
    resolvedPath ++ "/index.py";
    resolvedPath ++ "/__init__.py" ].

(** The probing loop with its [break]: the first candidate that is the path
    of a file. *)
Definition firstPresent (allFiles : list File.SourceFile) (paths : list string)
  : option string :=
  find (fun p => existsb (fun f => String.eqb (File.path f) p) allFiles) paths.

(** What one import contributes to [resolved]. *)
Definition resolveImport (currentFile : string) (allFiles : list File.SourceFile)
    (imp : string) : list string :=
  if isExternalDependency imp then []
  else if startsWith imp "." then
    let currentDir := join "/" (removelast (split "/" currentFile)) in
    let resolvedPath :=
      if startsWith imp "./" then currentDir ++ "/" ++ drop 2 imp else imp in
    let resolvedPath := join "/" (normalizeParts (split "/" resolvedPath)) in
    match firstPresent allFiles (possiblePaths resolvedPath) with
    | Some p => [p]
    | None => []
    end
  else [].

Definition resolveImportPaths (imports : list string) (currentFile : string)
    (allFiles : list File.SourceFile) : list string :=
  flat_map (resolveImport currentFile allFiles) imports.

(** [/page\.(tsx?|jsx?)$/] and [/layout\.(tsx?|jsx?)$/] share their tail. *)
Definition tsxJsxEnd : regex :=
  rseq [RChar "."; RGroup 1 (RAlt (rseq [lit "ts"; ROpt (RChar "x")])
                                  (rseq [lit "js"; ROpt (RChar "x")]));
        REol].

Definition entryPatterns : list regex :=
  [ rseq [RBol; lit "index"; RChar "."];       (* /^index\./ *)
    rseq [RBol; lit "main"; RChar "."];        (* /^main\./ *)
    rseq [RBol; lit "app"; RChar "."];         (* /^app\./ *)
    rseq [RBol; lit "src/index"; RChar "."];   (* /^src\/index\./ *)
    rseq [RBol; lit "src/main"; RChar "."];    (* /^src\/main\./ *)
    rseq [lit "page"; tsxJsxEnd];              (* /page\.(tsx?|jsx?)$/ *)
    rseq [lit "layout"; tsxJsxEnd] ].          (* /layout\.(tsx?|jsx?)$/ *)

Definition isEntryPoint (p : string) : bool :=
  existsb (fun pattern => test false pattern p) entryPatterns.

(** *** Cycle detection *)

(** The mutable state of [detectCircularDependencies]: the two sets and the
    list of cycles found so far. *)
Record dfs_state : Type := mkDfs {
  visited : list string;
  recursionStack : list string;
  circular : list (list string)
}.

(** [set.add(x)] and [set.delete(x)] on a [Set<string>]. *)
Definition set_add (x : string) (l : list string) : list string :=
  if mem x l then l else (l ++ [x])%list.

Definition set_delete (x : string) (l : list string) : list string :=
  filter (fun y => negb (String.eqb y x)) l.

(** The branch taken when [dep] is on the recursion stack. *)
Definition recordCycle (currentPath : list string) (dep : string)
    (circular : list (list string)) : list (list string) :=
  match indexOf dep currentPath with
  | Some cycleStart =>
      let cycle := (skipn cycleStart currentPath ++ [dep])%list in
      let cycleStr := join "->" cycle in
      if existsb (fun c => String.eqb (join "->" c) cycleStr) circular
      then circular
      else (circular ++ [cycle])%list
  | None => circular
  end.

(** The loop [for (const dep of node.dependencies)] in the body of [dfs];
    [recurse dep st] stands for the call [dfs(dep, [...currentPath])]. *)
Fixpoint forDeps (recurse : string -> dfs_state -> option dfs_state)
    (currentPath : list string) (deps : list string) (st : dfs_state)
  : option dfs_state :=
  match deps with
  | [] => Some st
  | dep :: deps' =>
      if negb (mem dep (visited st)) then
        match recurse dep st with
        | Some st' => forDeps recurse currentPath deps' st'
        | None => None
        end
      else if mem dep (recursionStack st) then
        forDeps recurse currentPath deps'
          (mkDfs (visited st) (recursionStack st)
                 (recordCycle currentPath dep (circular st)))
      else forDeps recurse currentPath deps' st
  end.

(** The inner function [dfs].  The recursion is bounded by [fuel]; [None]
    means that the bound was reached.  [runDfs_total] below shows that the
    bound used by [detectCircularDependencies] is never reached. *)
Fixpoint dfs (nodes : NodeMap) (fuel : nat) (path : string)
    (currentPath : list string) (st : dfs_state) : option dfs_state :=
  match fuel with
  | O => None
  | S fuel' =>
      let st := mkDfs (set_add path (visited st))
                      (set_add path (recursionStack st)) (circular st) in
      let currentPath := (currentPath ++ [path])%list in
      let after :=
        match map_get nodes path with
        | Some node =>
            forDeps (fun dep st => dfs nodes fuel' dep currentPath st)
                    currentPath (dependencies node) st
        | None => Some st
        end in
      match after with
      | Some st => Some (mkDfs (visited st)
                               (set_delete path (recursionStack st))
                               (circular st))
      | None => None
      end
  end.

(** The final loop over [nodes.keys()]. *)
Fixpoint dfsRoots (nodes : NodeMap) (fuel : nat) (keys : list string)
    (st : dfs_state) : option dfs_state :=
  match keys with
  | [] => Some st
  | path :: keys' =>
      if negb (mem path (visited st)) then
        match dfs nodes fuel path [] st with
        | Some st' => dfsRoots nodes fuel keys' st'
        | None => None
        end
      else dfsRoots nodes fuel keys' st
  end.

(** Every string that [dfs] can be called on: the keys and the
    dependencies of the nodes. *)
Definition universe (nodes : NodeMap) : list string :=
  (map_keys nodes ++ flat_map (fun kv => dependencies (snd kv)) nodes)%list.

Definition dfsFuel (nodes : NodeMap) : nat := S (List.length (universe nodes)).

Definition runDfs (nodes : NodeMap) : option dfs_state :=
  dfsRoots nodes (dfsFuel nodes) (map_keys nodes) (mkDfs [] [] []).

Definition detectCircularDependencies (nodes : NodeMap) : list (list string) :=
  match runDfs nodes with
  | Some st => circular st
  | None => []
  end.

(** *** Building the graph *)

(** First pass: one node per file, a later file replacing an earlier one
    of the same path. *)
Definition firstPass (files : list File.SourceFile) : NodeMap :=
  fold_left
    (fun nodes f =>
       let imports := extractImports (File.content f) in
       let exports := extractExports (File.content f) in
       let dependencies := resolveImportPaths imports (File.path f) files in
       map_set nodes (File.path f)
         (mkNode (File.path f) imports exports dependencies []))
    files [].

(** [depNode.dependents.push(path)], when [nodes.get(dep)] is defined. *)
Definition addDependent (nodes : NodeMap) (dep p : string) : NodeMap :=
  match map_get nodes dep with
  | Some depNode =>
      map_set nodes dep
        (mkNode (path depNode) (imports depNode) (exports depNode)
                (dependencies depNode) (dependents depNode ++ [p]))
  | None => nodes
  end.

(** Second pass.  The loop runs over the entries of the map and changes only
    [dependents] fields, so keys and [dependencies] are those of [nodes]. *)
Definition secondPass (nodes : NodeMap) : NodeMap :=
  fold_left
    (fun acc kv =>
       fold_left (fun acc dep => addDependent acc dep (fst kv))
                 (dependencies (snd kv)) acc)
    nodes nodes.

Definition detectMissing (nodes : NodeMap) : list MissingDependency :=
  flat_map
    (fun kv =>
       flat_map
         (fun dep =>
            if negb (map_has nodes dep) && negb (isExternalDependency dep)
            then [mkMissing (fst kv) dep] else [])
         (dependencies (snd kv)))
    nodes.

Definition detectUnused (nodes : NodeMap) : list string :=
  flat_map
    (fun kv =>
       if (List.length (dependents (snd kv)) =? 0) && negb (isEntryPoint (fst kv))
       then [fst kv] else [])
    nodes.

Definition analyzeDependencies (files : list File.SourceFile) : DependencyGraph :=
  let nodes := secondPass (firstPass files) in
  mkGraph nodes
          (detectCircularDependencies nodes)
          (detectMissing nodes)
          (detectUnused nodes).

(** *** Issues *)

Module DependencyIssue.
Inductive kind : Type := circular | missing | unused.
Inductive level : Type := error | warning.
Record t : Type := mk {
  type : kind;
  severity : level;
  message : string;
  files : list string
}.
End DependencyIssue.

(** The separator of the paths of a cycle in a message: a space, the three
    characters U+00E2, U+2020, U+2019 of the source text, a space.  The two
    characters above U+00FF are written as their UTF-8 bytes. *)
Definition cycleSeparator : string :=
  string_of_list_ascii
    (map chr [32; 195; 162; 226; 128; 160; 226; 128; 153; 32]).

Definition getDependencyIssues (graph : DependencyGraph)
  : list DependencyIssue.t :=
  (map (fun cycle =>
          DependencyIssue.mk DependencyIssue.circular DependencyIssue.error
            ("Circular dependency detected: " ++ join cycleSeparator cycle)
            cycle)
       (circularDependencies graph) ++
   map (fun m =>
          DependencyIssue.mk DependencyIssue.missing DependencyIssue.error
            ("Missing dependency " ++ dq ++ missing m ++ dq ++ " in " ++ file m)
            [file m])
       (missingDependencies graph) ++
   map (fun f =>
          DependencyIssue.mk DependencyIssue.unused DependencyIssue.warning
            ("File " ++ dq ++ f ++ dq ++ " is not imported by any other file")
            [f])
       (unusedFiles graph))%list.

End DependencyAnalyzer.

(** ** lib/code-quality-analyzer.ts *)

Module CodeQualityAnalyzer.
Import Js Regex.

Module CodeBlock.
Record t : Type := mk {
  content : string;
  startLine : nat;
  endLine : nat;
  file : string
}.
End CodeBlock.

Module DuplicateCode.
Record t : Type := mk {
  blocks : list CodeBlock.t;
  similarity : Q;
  lines : nat
}.
End DuplicateCode.

Module DeadCode.
Inductive kind : Type := function | variable | import | class.
Record t : Type := mk {
  type : kind;
  name : string;
  file : string;
  line : nat;
  reason : string
}.
End DeadCode.

Module RedundantCode.
Inductive kind : Type :=
| duplicate_logic | unnecessary_complexity | unused_code | redundant_condition.
Record t : Type := mk {
  type : kind;
  file : string;
  line : nat;
  message : string;
  suggestion : string
}.
End RedundantCode.

Module ComplexityIssue.
Record t : Type := mk {
  file : string;
  function : string;
  complexity : nat;
  line : nat
}.
End ComplexityIssue.

Record CodeQualityReport : Type := mkReport {
  duplicates : list DuplicateCode.t;
  deadCode : list DeadCode.t;
  redundantCode : list RedundantCode.t;
  complexityIssues : list ComplexityIssue.t
}.

(** The elements of an array with their indices, as [forEach] passes them. *)
Definition indexed {A} (l : list A) : list (nat * A) :=
  combine (seq 0 (List.length l)) l.

(** *** Helper functions *)

Definition normalizeCode (code : string) : string :=
  let code := replace_all false (RPlus s_) " " code in          (* /\s+/g *)
  let code := replace_all false (rseq [lit "//"; RStar RDot]) EmptyString code in
                                                               (* /\/\/.*/g *)
  let code := replace_all false
                (rseq [lit "/*"; RLazyStar (RSet [CSpace; CNotSpace]); lit "*/"])
                EmptyString code in                          (* /\/\*[\s\S]*?\*\//g *)
  trim code.

(** The number of positions below both lengths at which the two strings
    agree: the [matches] counter after the loop of [calculateSimilarity]. *)
Fixpoint countMatches (code1 code2 : string) : nat :=
  match code1, code2 with
  | String c1 s1, String c2 s2 =>
      (if Ascii.eqb c1 c2 then 1 else 0) + countMatches s1 s2
  | _, _ => 0
  end.

(** The quotient [matches / maxLen] is kept as an exact fraction. *)
Definition calculateSimilarity (code1 code2 : string) : Q :=
  let len1 := String.length code1 in
  let len2 := String.length code2 in
  let maxLen := Nat.max len1 len2 in
  if maxLen =? 0 then 1%Q
  else Qmake (Z.of_nat (countMatches code1 code2)) (Pos.of_nat maxLen).

Record ImportName : Type := mkImport { imp_name : string; imp_line : nat }.
Record FunctionInfo : Type := mkFunction {
  fn_name : string; fn_line : nat; fn_body : string
}.
Record VariableInfo : Type := mkVariable { var_name : string; var_line : nat }.

Definition quote : regex := RSet [CChar "'"; CChar (chr 34)].       (* ['\x22] *)
Definition notQuote : regex := RNotSet [CChar "'"; CChar (chr 34)]. (* [^'\x22] *)

(** [/import\s+(?:{([^}]+)}|(\w+))\s+from/] *)
Definition es6ImportLine : regex :=
  rseq [lit "import"; RPlus s_;
        RAlt (rseq [RChar "{"; RGroup 1 (RPlus (RNotSet [CChar "}"])); RChar "}"])
             (RGroup 2 (RPlus w_));
        RPlus s_; lit "from"].

(** [/\s+as\s+\w+/] *)
Definition asAlias : regex := rseq [RPlus s_; lit "as"; RPlus s_; RPlus w_].

(** [/^(?:from\s+[\w.]+\s+)?import\s+([\w,\s]+)/] *)
Definition pythonImportLine : regex :=
  rseq [RBol;
        ROpt (rseq [lit "from"; RPlus s_; RPlus (RSet [CWord; CChar "."]); RPlus s_]);
        lit "import"; RPlus s_;
        RGroup 1 (RPlus (RSet [CWord; CChar ","; CSpace]))].

(** [/^import\s+([\w.]+);/] *)
Definition javaImportLine : regex :=
  rseq [RBol; lit "import"; RPlus s_;
        RGroup 1 (RPlus (RSet [CWord; CChar "."])); RChar ";"].

(** [/^use\s+([\w\\]+)/] *)
Definition phpUseLine : regex :=
  rseq [RBol; lit "use"; RPlus s_;
        RGroup 1 (RPlus (RSet [CWord; CChar (chr 92)]))].

(** [/require(?:_once)?\s*$$\s*['\x22]([^'\x22]+)['\x22]\s*$$/] *)
Definition phpRequireLine : regex :=
  rseq [lit "require"; ROpt (lit "_once"); RStar s_; REol; REol; RStar s_;
        quote; RGroup 1 (RPlus notQuote); quote; RStar s_; REol; REol].

(** [a.pop() || fullPath] after a [split]: the last piece unless it is
    empty. *)
Definition lastOr (pieces : list string) (fullPath : string) : string :=
  let l := last pieces EmptyString in
  if String.eqb l EmptyString then fullPath else l.

(** What one line contributes to the result of [extractImports]. *)
Definition importsOfLine (index : nat) (line : string) : list ImportName :=
  (match match_first false es6ImportLine line with
   | Some importMatch =>
       let names :=
         match group 1 importMatch with
         | Some g1 =>
             if String.eqb g1 EmptyString then
               match group 2 importMatch with Some g2 => [g2] | None => [] end
             else map trim (split "," g1)
         | None =>
             match group 2 importMatch with Some g2 => [g2] | None => [] end
         end in
       map (fun name => mkImport (trim (replace_first false asAlias EmptyString name))
                                 (index + 1)) names
   | None => []
   end ++
   match match_first false pythonImportLine line with
   | Some pythonImport =>
       match group 1 pythonImport with
       | Some g1 =>
           map (fun name => mkImport (trim (hd EmptyString (split " as " name))) (index + 1))
               (map trim (split "," g1))
       | None => []
       end
   | None => []
   end ++
   match match_first false javaImportLine line with
   | Some javaImport =>
       match group 1 javaImport with
       | Some fullPath => [mkImport (lastOr (split "." fullPath) fullPath) (index + 1)]
       | None => []
       end
   | None => []
   end ++
   match match_first false phpUseLine line with
   | Some phpUse =>
       match group 1 phpUse with
       | Some fullPath =>
           [mkImport (lastOr (split bslash fullPath) fullPath) (index + 1)]
       | None => []
       end
   | None => []
   end ++
   match match_first false phpRequireLine line with
   | Some phpRequire =>
       match group 1 phpRequire with
       | Some g1 => [mkImport g1 (index + 1)]
       | None => []
       end
   | None => []
   end)%list.

Definition extractImports (content : string) : list ImportName :=
  flat_map (fun il => importsOfLine (fst il) (snd il))
           (indexed (split nl content)).

(** The pattern of [extractUsedIdentifiers], flag [g]: [\b], then group 1
    made of one character of [[a-zA-Z_$]] and a greedy star of
    [[a-zA-Z0-9_$]], then [\b]. *)
Definition identifierRegex : regex :=
  rseq [RWordB;
        RGroup 1
          (rseq [RSet [CRange "a" "z"; CRange "A" "Z"; CChar "_"; CChar "$"];
                 RStar (RSet [CRange "a" "z"; CRange "A" "Z"; CRange "0" "9";
                              CChar "_"; CChar "$"])]);
        RWordB].

(** The [Set] of identifiers, as the list of its elements. *)
Definition extractUsedIdentifiers (content : string) : list string :=
  dedupe
    (flat_map (fun m => match group 1 m with Some x => [x] | None => [] end)
              (match_all false identifierRegex content)).

(** The loop of [extractFunctionBody] from line [startLine] on: the body so
    far, the brace count and the [started] flag. *)
Definition countBraces (line : string) (braceCount : Z) (started : bool)
  : Z * bool :=
  fold_left
    (fun acc char =>
       if Ascii.eqb char "{" then ((fst acc + 1)%Z, true)
       else if Ascii.eqb char "}" then ((fst acc - 1)%Z, snd acc)
       else acc)
    (list_ascii_of_string line) (braceCount, started).

Fixpoint functionBodyLoop (ls : list string) (braceCount : Z) (started : bool)
    (body : string) : string :=
  match ls with
  | [] => body
  | line :: ls' =>
      let body := body ++ line ++ nl in
      let bs := countBraces line braceCount started in
      if snd bs && (fst bs =? 0)%Z then body
      else functionBodyLoop ls' (fst bs) (snd bs) body
  end.

Definition extractFunctionBody (content : string) (startLine : nat) : string :=
  functionBodyLoop (skipn startLine (split nl content)) 0%Z false EmptyString.

(** [line.search(/\S/)] as an integer, [-1] when there is no match. *)
Definition indentOf (line : string) : Z :=
  match search false S_ line with
  | Some i => Z.of_nat i
  | None => (-1)%Z
  end.

(** The loop of [extractPythonFunctionBody] after its first line. *)
Fixpoint pythonBodyLoop (ls : list string) (baseIndent : Z) (body : string)
  : string :=
  match ls with
  | [] => body
  | line :: ls' =>
      let indent := indentOf line in
      let baseIndent :=
        if (baseIndent =? -1)%Z && (0 <? indent)%Z then indent else baseIndent in
      if (indent <? baseIndent)%Z && negb (String.eqb (trim line) EmptyString) then body
      else pythonBodyLoop ls' baseIndent (body ++ line ++ nl)
  end.

Definition extractPythonFunctionBody (content : string) (startLine : nat)
  : string :=
  match skipn startLine (split nl content) with
  | [] => EmptyString
  | line :: ls => pythonBodyLoop ls (-1)%Z (EmptyString ++ line ++ nl)
  end.

(** [/function\s+(\w+)\s*\(/] *)
Definition functionDecl : regex :=
  rseq [lit "function"; RPlus s_; RGroup 1 (RPlus w_); RStar s_; RChar "("].

(** [/(?:const|let|var)\s+(\w+)\s*=\s*(?:$$[^)]*$$|[^=]+)\s*=>/] *)
Definition arrowDecl : regex :=
  rseq [ralt [lit "const"; lit "let"; lit "var"]; RPlus s_;
        RGroup 1 (RPlus w_); RStar s_; RChar "="; RStar s_;
        RAlt (rseq [REol; REol; RStar (RNotSet [CChar ")"]); REol; REol])
             (RPlus (RNotSet [CChar "="]));
        RStar s_; lit "=>"].

(** [/^def\s+(\w+)\s*\(/] *)
Definition pythonDef : regex :=
  rseq [RBol; lit "def"; RPlus s_; RGroup 1 (RPlus w_); RStar s_; RChar "("].

(** [/(?:public|private|protected)?\s*(?:static)?\s*\w+\s+(\w+)\s*\(/] *)
Definition javaMethodDecl : regex :=
  rseq [ROpt (ralt [lit "public"; lit "private"; lit "protected"]); RStar s_;
        ROpt (lit "static"); RStar s_; RPlus w_; RPlus s_;
        RGroup 1 (RPlus w_); RStar s_; RChar "("].

Definition functionFound (r : regex) (line : string) (index : nat)
    (body : string) : list FunctionInfo :=
  match match_first false r line with
  | Some m =>
      match group 1 m with
      | Some n => [mkFunction n (index + 1) body]
      | None => []
      end
  | None => []
  end.

(** What one line contributes to the result of [extractFunctions]. *)
Definition functionsOfLine (content : string) (index : nat) (line : string)
  : list FunctionInfo :=
  (functionFound functionDecl line index (extractFunctionBody content index) ++
   functionFound arrowDecl line index (extractFunctionBody content index) ++
   functionFound pythonDef line index (extractPythonFunctionBody content index) ++
   (if negb (includes line "class ")
    then functionFound javaMethodDecl line index (extractFunctionBody content index)
    else []) ++
   functionFound functionDecl line index (extractFunctionBody content index))%list.

Definition extractFunctions (content : string) : list FunctionInfo :=
  flat_map (fun il => functionsOfLine content (fst il) (snd il))
           (indexed (split nl content)).

(** [/(?:const|let|var)\s+(\w+)\s*=/] *)
Definition variableDecl : regex :=
  rseq [ralt [lit "const"; lit "let"; lit "var"]; RPlus s_;
        RGroup 1 (RPlus w_); RStar s_; RChar "="].

Definition extractVariables (content : string) : list VariableInfo :=
  flat_map
    (fun il =>
       match match_first false variableDecl (snd il) with
       | Some varMatch =>
           match group 1 varMatch with
           | Some n => [mkVariable n (fst il + 1)]
           | None => []
           end
       | None => []
       end)
    (indexed (split nl content)).

(** [new RegExp(`\\b${identifier}\\b`, "g")]: the identifiers passed are
    runs of word characters, which stand for themselves in a pattern. *)
Definition countUsages (content identifier : string) : nat :=
  List.length (match_all false (rseq [RWordB; lit identifier; RWordB]) content).

Definition decisionKeywords : list regex :=
  [ rseq [RWordB; lit "if"; RWordB];                          (* /\bif\b/g *)
    rseq [RWordB; lit "else"; RPlus s_; lit "if"; RWordB];    (* /\belse\s+if\b/g *)
    rseq [RWordB; lit "while"; RWordB];                       (* /\bwhile\b/g *)
    rseq [RWordB; lit "for"; RWordB];                         (* /\bfor\b/g *)
    rseq [RWordB; lit "case"; RWordB];                        (* /\bcase\b/g *)
    rseq [RWordB; lit "catch"; RWordB];                       (* /\bcatch\b/g *)
    rseq [RWordB; lit "&&"; RWordB];                          (* /\b&&\b/g *)
    rseq [RWordB; lit "||"; RWordB];                          (* /\b\|\|\b/g *)
    rseq [RChar "?"; RStar s_; RStar RDot; RStar s_; RChar ":"] (* /\?\s*.*\s*:/g *)
  ].

Definition calculateCyclomaticComplexity (code : string) : nat :=
  fold_left
    (fun complexity keyword =>
       complexity + List.length (match_all false keyword code))
    decisionKeywords 1.

(** *** Duplicate code *)

Definition minLines : nat := 5.

(** The windows of one file: the inner loop
    [for (let i = 0; i < lines.length - minLines; i++)]. *)
Definition blocksOfFile (f : File.SourceFile) : list CodeBlock.t :=
  let lines := split nl (File.content f) in
  flat_map
    (fun i =>
       let block := join nl (slice i (i + minLines) lines) in
       if 50 <? String.length (trim block)
       then [CodeBlock.mk (normalizeCode block) (i + 1) (i + minLines) (File.path f)]
       else [])
    (seq 0 (List.length lines - minLines)).

(** [similarity > 0.8] on the exact fraction. *)
Definition aboveThreshold (similarity : Q) : bool :=
  negb (Qle_bool similarity (8 # 10)).

(** The comparison of [allBlocks[i]] with every later block. *)
Definition compareWith (b : CodeBlock.t) (later : list CodeBlock.t)
  : list DuplicateCode.t :=
  flat_map
    (fun b' =>
       let similarity :=
         calculateSimilarity (CodeBlock.content b) (CodeBlock.content b') in
       if aboveThreshold similarity &&
          negb (String.eqb (CodeBlock.file b) (CodeBlock.file b'))
       then [DuplicateCode.mk [b; b'] similarity minLines]
       else [])
    later.

(** The double loop over [i < j]. *)
Fixpoint compareBlocks (allBlocks : list CodeBlock.t) : list DuplicateCode.t :=
  match allBlocks with
  | [] => []
  | b :: later => (compareWith b later ++ compareBlocks later)%list
  end.

Definition findDuplicateCode (files : list File.SourceFile)
  : list DuplicateCode.t :=
  compareBlocks (flat_map blocksOfFile files).

(** *** Dead code *)

Definition unusedImports (f : File.SourceFile) (usedIdentifiers : list string)
  : list DeadCode.t :=
  flat_map
    (fun imp =>
       if negb (mem (imp_name imp) usedIdentifiers)
       then [DeadCode.mk DeadCode.import (imp_name imp) (File.path f) (imp_line imp)
               "Import is never used in this file"]
       else [])
    (extractImports (File.content f)).

(** [node?.exports.includes(func.name)] is [undefined], hence falsy, when the
    graph has no node for the file. *)
Definition unusedFunctions (f : File.SourceFile) (usedIdentifiers : list string)
    (dependencyGraph : DependencyAnalyzer.DependencyGraph) : list DeadCode.t :=
  let node := DependencyAnalyzer.map_get
                (DependencyAnalyzer.nodes dependencyGraph) (File.path f) in
  flat_map
    (fun func =>
       let isExported :=
         match node with
         | Some n => mem (fn_name func) (DependencyAnalyzer.exports n)
         | None => false
         end in
       let isUsedInternally := mem (fn_name func) usedIdentifiers in
       if negb isExported && negb isUsedInternally
       then [DeadCode.mk DeadCode.function (fn_name func) (File.path f) (fn_line func)
               "Function is never called or exported"]
       else [])
    (extractFunctions (File.content f)).

Definition unusedVariables (f : File.SourceFile) : list DeadCode.t :=
  flat_map
    (fun v =>
       if countUsages (File.content f) (var_name v) =? 1
       then [DeadCode.mk DeadCode.variable (var_name v) (File.path f) (var_line v)
               "Variable is declared but never used"]
       else [])
    (extractVariables (File.content f)).

Definition deadCodeOfFile (dependencyGraph : DependencyAnalyzer.DependencyGraph)
    (f : File.SourceFile) : list DeadCode.t :=
  let usedIdentifiers := extractUsedIdentifiers (File.content f) in
  (unusedImports f usedIdentifiers ++
   unusedFunctions f usedIdentifiers dependencyGraph ++
   unusedVariables f)%list.

Definition findDeadCode (files : list File.SourceFile)
    (dependencyGraph : DependencyAnalyzer.DependencyGraph) : list DeadCode.t :=
  flat_map (deadCodeOfFile dependencyGraph) files.

(** *** Redundant code *)

(** [/if\s*$$\s*true\s*$$/] and [/if\s*$$\s*false\s*$$/] *)
Definition ifLiteral (word : string) : regex :=
  rseq [lit "if"; RStar s_; REol; REol; RStar s_; lit word; RStar s_; REol; REol].

Definition ifTruePy : regex := rseq [lit "if"; RPlus s_; lit "True:"]. (* /if\s+True:/ *)
Definition passEnd : regex := rseq [lit "pass"; RStar s_; REol].       (* /pass\s*$/ *)
Definition printlnCall : regex := lit "System.out.println".    (* /System\.out\.println/ *)
Definition phpDebug : regex := RAlt (lit "var_dump") (lit "print_r"). (* /var_dump|print_r/ *)
Definition doubleNegation : regex := rseq [lit "!!"; RPlus w_].       (* /!!\w+/ *)

(** [/console\.(log|debug|info|warn)\(/g], a fresh object at each test. *)
Definition consoleCall : regex :=
  rseq [lit "console."; RGroup 1 (ralt [lit "log"; lit "debug"; lit "info"; lit "warn"]);
        RChar "("].

Definition when_ {A} (b : bool) (x : A) : list A := if b then [x] else [].

(** The findings of one line, in the order of the tests in the callback. *)
Definition redundantOfLine (f : File.SourceFile) (index : nat) (line : string)
  : list RedundantCode.t :=
  let p := File.path f in
  let n := index + 1 in
  (when_ (test false (ifLiteral "true") line)
     (RedundantCode.mk RedundantCode.redundant_condition p n
        "Condition is always true"
        "Remove the if statement and keep only the code block") ++
   when_ (test false (ifLiteral "false") line)
     (RedundantCode.mk RedundantCode.redundant_condition p n
        "Condition is always false"
        "Remove this entire if block as it will never execute") ++
   (if String.eqb (File.language f) "py" then
      when_ (test false ifTruePy line)
        (RedundantCode.mk RedundantCode.redundant_condition p n
           "Condition is always True"
           "Remove the if statement and unindent the code block") ++
      when_ (test false passEnd line && (0 <? index))
        (RedundantCode.mk RedundantCode.unused_code p n
           "Empty pass statement"
           "Remove pass or add implementation")
    else []) ++
   (if String.eqb (File.language f) "java" then
      when_ (test false printlnCall line)
        (RedundantCode.mk RedundantCode.unused_code p n
           "Debug print statement found"
           "Remove System.out.println before production")
    else []) ++
   (if String.eqb (File.language f) "php" then
      when_ (test false phpDebug line)
        (RedundantCode.mk RedundantCode.unused_code p n
           "Debug statement found"
           "Remove var_dump/print_r before production")
    else []) ++
   when_ (test false doubleNegation line)
     (RedundantCode.mk RedundantCode.unnecessary_complexity p n
        "Double negation detected"
        "Use Boolean() or remove unnecessary negations") ++
   when_ (test false consoleCall line)
     (RedundantCode.mk RedundantCode.unused_code p n
        "Console statement found"
        "Remove console statements before production deployment"))%list.

Definition findRedundantCode (files : list File.SourceFile)
  : list RedundantCode.t :=
  flat_map
    (fun f => flat_map (fun il => redundantOfLine f (fst il) (snd il))
                       (indexed (split nl (File.content f))))
    files.

(** *** Complexity *)

Definition analyzeComplexity (files : list File.SourceFile)
  : list ComplexityIssue.t :=
  flat_map
    (fun f =>
       flat_map
         (fun func =>
            let complexity := calculateCyclomaticComplexity (fn_body func) in
            if 10 <? complexity
            then [ComplexityIssue.mk (File.path f) (fn_name func) complexity
                    (fn_line func)]
            else [])
         (extractFunctions (File.content f)))
    files.

Definition analyzeCodeQuality (files : list File.SourceFile)
    (dependencyGraph : DependencyAnalyzer.DependencyGraph) : CodeQualityReport :=
  mkReport (findDuplicateCode files)
           (findDeadCode files dependencyGraph)
           (findRedundantCode files)
           (analyzeComplexity files).

End CodeQualityAnalyzer.

(** ** lib/multi-file-analyzer.ts *)

Module MultiFileAnalyzer.
Import Js Regex.

Module FileContext.
Record t : Type := mk {
  path : string;
  content : string;
  language : string;
  dependencies : list string;
  dependents : list string;
  exports : list string
}.
End FileContext.

Record AnalysisContext : Type := mkContext {
  files : list FileContext.t;
  dependencyGraph : DependencyAnalyzer.DependencyGraph;
  entryPoints : list string;
  totalLines : nat;
  qualityReport : option CodeQualityAnalyzer.CodeQualityReport
}.

(** [/page\.(tsx?|jsx?)$/], [/layout\.(tsx?|jsx?)$/] and
    [/route\.(tsx?|jsx?)$/] share their tail. *)
Definition tsxJsxEnd : regex :=
  rseq [RChar "."; RGroup 1 (RAlt (rseq [lit "ts"; ROpt (RChar "x")])
                                  (rseq [lit "js"; ROpt (RChar "x")]));
        REol].

Definition entryPatterns : list regex :=
  [ rseq [RBol; lit "index"; RChar "."];       (* /^index\./ *)
    rseq [RBol; lit "main"; RChar "."];        (* /^main\./ *)
    rseq [RBol; lit "app"; RChar "."];         (* /^app\./ *)
    rseq [lit "page"; tsxJsxEnd];              (* /page\.(tsx?|jsx?)$/ *)
    rseq [lit "layout"; tsxJsxEnd];            (* /layout\.(tsx?|jsx?)$/ *)
    rseq [lit "route"; tsxJsxEnd] ].           (* /route\.(tsx?|jsx?)$/ *)

Definition isEntryPoint (p : string) : bool :=
  existsb (fun pattern => test false pattern p) entryPatterns.

(** The context of one file: [node?.dependencies || []] and its two
    siblings are the fields of the node, or empty arrays when the graph has
    no node for the path. *)
Definition fileContext (dependencyGraph : DependencyAnalyzer.DependencyGraph)
    (f : File.SourceFile) : FileContext.t :=
  let node := DependencyAnalyzer.map_get
                (DependencyAnalyzer.nodes dependencyGraph) (File.path f) in
  FileContext.mk (File.path f) (File.content f) (File.language f)
    (match node with Some n => DependencyAnalyzer.dependencies n | None => [] end)
    (match node with Some n => DependencyAnalyzer.dependents n | None => [] end)
    (match node with Some n => DependencyAnalyzer.exports n | None => [] end).

Definition buildAnalysisContext (files : list File.SourceFile)
    (dependencyGraph : DependencyAnalyzer.DependencyGraph) : AnalysisContext :=
  let fileContexts := map (fileContext dependencyGraph) files in
  let entryPoints :=
    map FileContext.path
      (filter (fun f => (List.length (FileContext.dependents f) =? 0) ||
                        isEntryPoint (FileContext.path f))
              fileContexts) in
  let totalLines :=
    fold_left (fun sum f => sum + List.length (split nl (File.content f)))
              files 0 in
  let qualityReport := CodeQualityAnalyzer.analyzeCodeQuality files dependencyGraph in
  mkContext fileContexts dependencyGraph entryPoints totalLines
            (Some qualityReport).

End MultiFileAnalyzer.

(** * Notions used to state the properties *)

(** ** Patterns that cannot match *)

Module RegexNotions.
Import Js Regex.

(** [body] fails whenever its continuation always fails. *)
Definition failing (body : mstate -> (mstate -> option mstate) -> option mstate)
  : Prop :=
  forall st k, (forall s, k s = None) -> body st k = None.

(** Patterns that fail from every state, whatever follows them. *)
Definition never (r : regex) : Prop :=
  forall st k, rmatch false r st k = None.

(** Two continuations that agree on the states with at most [L] characters
    left. *)
Definition agree_upto (L : nat) (k1 k2 : mstate -> option mstate) : Prop :=
  forall st, String.length (rest st) <= L -> k1 st = k2 st.

(** [body] looks at its continuation only on states that are not further
    back in the input than the state it starts from. *)
Definition local (body : mstate -> (mstate -> option mstate) -> option mstate)
  : Prop :=
  forall st k1 k2,
    agree_upto (String.length (rest st)) k1 k2 -> body st k1 = body st k2.

(** A lower bound on the number of characters that a match consumes. *)
Fixpoint min_len (r : regex) : nat :=
  match r with
  | RChar _ | RSet _ | RNotSet _ | RDot => 1
  | RBol | REol | RWordB | REmpty => 0
  | RSeq r1 r2 => min_len r1 + min_len r2
  | RAlt r1 r2 => Nat.min (min_len r1) (min_len r2)
  | RStar _ | RLazyStar _ | ROpt _ => 0
  | RPlus r' => min_len r'
  | RGroup _ r' => min_len r'
  end.

(** When [body st k] succeeds, [k] has succeeded on a state at least [n]
    characters further. *)
Definition advances (n : nat)
    (body : mstate -> (mstate -> option mstate) -> option mstate) : Prop :=
  forall st k e,
    body st k = Some e ->
    exists st', String.length (rest st') + n <= String.length (rest st) /\
                k st' = Some e.

End RegexNotions.

(** ** The two passes, node by node *)

Module DependencyNotions.
Import Js Regex DependencyAnalyzer.

(** The step of the first pass, for a fixed [allFiles]. *)
Definition firstPassStep (allFiles : list File.SourceFile)
    (acc : NodeMap) (f : File.SourceFile) : NodeMap :=
  map_set acc (File.path f)
    (mkNode (File.path f) (extractImports (File.content f))
            (extractExports (File.content f))
            (resolveImportPaths (extractImports (File.content f))
                                (File.path f) allFiles) []).

(** What the first pass guarantees for every node: its key is its path, it
    has no dependents yet, and its dependencies are paths of files. *)
Definition freshNode (allFiles : list File.SourceFile)
    (k : string) (v : DependencyNode) : Prop :=
  path v = k /\ dependents v = [] /\
  forall d, In d (dependencies v) -> In d (map File.path allFiles).

(** The node that the first pass builds for a file. *)
Definition nodeOfFile (allFiles : list File.SourceFile) (f : File.SourceFile)
  : DependencyNode :=
  mkNode (File.path f) (extractImports (File.content f))
         (extractExports (File.content f))
         (resolveImportPaths (extractImports (File.content f))
                             (File.path f) allFiles) [].

Definition withDependents (ps : list string) (v : DependencyNode)
  : DependencyNode :=
  mkNode (path v) (imports v) (exports v) (dependencies v)
         (dependents v ++ ps).

(** The paths pushed onto the dependents of [k] while the second pass goes
    through the entries [es]. *)
Definition incomingOf (deps : list string) (p k : string) : list string :=
  flat_map (fun dep => if String.eqb dep k then [p] else []) deps.

Definition incoming (es : NodeMap) (k : string) : list string :=
  flat_map (fun kv => incomingOf (dependencies (snd kv)) (fst kv) k) es.

Definition secondPassStep (acc : NodeMap) (kv : string * DependencyNode)
  : NodeMap :=
  fold_left (fun acc dep => addDependent acc dep (fst kv))
            (dependencies (snd kv)) acc.

Definition unvisitedCount (U vis : list string) : nat :=
  List.length (filter (fun x => negb (mem x vis)) U).

Definition grows (vis vis' : list string) : Prop :=
  forall x, mem x vis = true -> mem x vis' = true.

(** What a call of [dfs] on an unvisited [p] achieves. *)
Definition dfsOk (nodes : NodeMap) (fuel : nat) : Prop :=
  forall p cp st,
    In p (universe nodes) -> mem p (visited st) = false ->
    unvisitedCount (universe nodes) (visited st) < fuel ->
    exists st', dfs nodes fuel p cp st = Some st' /\
                grows (visited st) (visited st') /\
                mem p (visited st') = true.

Definition importOf (specifier : string) : string :=
  "import " ++ dq ++ specifier ++ dq.

Definition c_ts : File.SourceFile := File.mkFile "c.ts" (importOf "./missing") "ts".

Definition a_ts : File.SourceFile := File.mkFile "a.ts" (importOf "./b") "ts".

Definition b_ts : File.SourceFile := File.mkFile "b.ts" (importOf "./a") "ts".

(** Two files in a directory: [src/a.ts] imports [src/b.ts]. *)
Definition twoFiles : list File.SourceFile :=
  [File.mkFile "src/a.ts" (importOf "./b") "ts"; File.mkFile "src/b.ts" EmptyString "ts"].

(** The traversal of [detectCircularDependencies] with room for [depth]
    calls of [dfs] nested in one another; [None] when some call would have
    to nest deeper. *)
Definition runDfsWithin (depth : nat) (nodes : NodeMap) : option dfs_state :=
  dfsRoots nodes depth (map_keys nodes) (mkDfs [] [] []).

(** A chain of three files in a directory: [src/a.ts] imports [src/b.ts],
    which imports [src/c.ts]. *)
Definition threeChain : list File.SourceFile :=
  [File.mkFile "src/a.ts" (importOf "./b") "ts";
   File.mkFile "src/b.ts" (importOf "./c") "ts";
   File.mkFile "src/c.ts" EmptyString "ts"].

End DependencyNotions.

(** ** Pairs of windows, and sample files *)

Module QualityNotions.
Import Js Regex CodeQualityAnalyzer.

(** The pairs made of a block of [X] and a block of [Y], in this order. *)
Definition crossPairs (X Y : list CodeBlock.t) : list DuplicateCode.t :=
  flat_map (fun b => compareWith b Y) X.

Definition fiveLines : string :=
  "const total = items.reduce((sum, item) => sum + item.price, 0)" ++ nl ++
  "const taxes = total * taxRate" ++ nl ++
  "const shipping = total > 100 ? 0 : 10" ++ nl ++
  "const grandTotal = total + taxes + shipping" ++ nl ++
  "return grandTotal".

Definition sixLinesA : File.SourceFile :=
  File.mkFile "a.ts" (fiveLines ++ nl ++ "}") "ts".

Definition sixLinesB : File.SourceFile :=
  File.mkFile "b.ts" (fiveLines ++ nl ++ "}") "ts".

Definition foo_ts : File.SourceFile := File.mkFile "a.ts" "function foo() {}" "ts".

Definition emptyGraph : DependencyAnalyzer.DependencyGraph :=
  DependencyAnalyzer.mkGraph [] [] [] [].

Definition emptyReport : CodeQualityReport := mkReport [] [] [] [].

End QualityNotions.

(** * Notions used to state further properties *)

Module ExtraNotions.
Import Js Regex DependencyAnalyzer DependencyNotions.

(** The last file of path [k], if any. *)
Definition lastFileOf (files : list File.SourceFile) (k : string)
  : option File.SourceFile :=
  find (fun f => String.eqb (File.path f) k) (rev files).

(** An edge of the graph: [b] is a dependency of the node of key [a]. *)
Definition edge (nodes : NodeMap) (a b : string) : Prop :=
  exists node, map_get nodes a = Some node /\ In b (dependencies node).

(** A list of paths in which each one has an edge to the next. *)
Fixpoint chain (nodes : NodeMap) (l : list string) : Prop :=
  match l with
  | a :: ((b :: _) as t) => edge nodes a b /\ chain nodes t
  | _ => True
  end.

(** One or more edges in a row. *)
Inductive walk (nodes : NodeMap) : string -> string -> Prop :=
| walk_one (x y : string) : edge nodes x y -> walk nodes x y
| walk_more (x y z : string) :
    edge nodes x y -> walk nodes y z -> walk nodes x z.

(** A closed loop along edges that comes back to its first path and goes
    through no path twice before that. *)
Definition simpleCycle (nodes : NodeMap) (c : list string) : Prop :=
  exists x mid, c = (x :: mid ++ [x])%list /\ NoDup (x :: mid) /\ chain nodes c.

(** The paths that [dfs] is done with: visited and off the recursion
    stack. *)
Definition finished (st : dfs_state) (x : string) : Prop :=
  mem x (visited st) = true /\ mem x (recursionStack st) = false.

Definition closedFinished (nodes : NodeMap) (st : dfs_state) : Prop :=
  forall x y, finished st x -> edge nodes x y -> finished st y.

Definition acyclicFinished (nodes : NodeMap) (st : dfs_state) : Prop :=
  forall x, finished st x -> ~ walk nodes x x.

(** What holds of the state between two steps of the traversal, when the
    current path is [cp]. *)
Definition dfsInvariant (nodes : NodeMap) (cp : list string) (st : dfs_state)
  : Prop :=
  recursionStack st = cp /\
  NoDup cp /\
  (forall x, In x cp -> mem x (visited st) = true) /\
  Forall (simpleCycle nodes) (circular st) /\
  (circular st = [] -> closedFinished nodes st /\ acyclicFinished nodes st).

(** What a call [dfs(p, cp)] that returns achieves. *)
Definition dfsSpec (nodes : NodeMap) (fuel : nat) : Prop :=
  forall p cp st st',
    dfsInvariant nodes cp st ->
    mem p (visited st) = false ->
    chain nodes (cp ++ [p]) ->
    dfs nodes fuel p cp st = Some st' ->
    dfsInvariant nodes cp st' /\
    grows (visited st) (visited st') /\
    mem p (visited st') = true /\
    (circular st' = [] -> circular st = []).

End ExtraNotions.

Module QualityExtraNotions.
Import Js Regex CodeQualityAnalyzer.

(** A window of [minLines] lines of the file [f]: its lines are numbered
    from 1 and it stops before the last line of the file. *)
Definition windowOf (f : File.SourceFile) (b : CodeBlock.t) : Prop :=
  CodeBlock.file b = File.path f /\
  1 <= CodeBlock.startLine b /\
  CodeBlock.endLine b = CodeBlock.startLine b + 4 /\
  CodeBlock.endLine b < List.length (split nl (File.content f)).

(** A line number of the file [f]. *)
Definition lineOf (f : File.SourceFile) (n : nat) : Prop :=
  1 <= n <= List.length (split nl (File.content f)).

(** A file with one function made of ten [if] statements. *)
Definition busyFile : File.SourceFile :=
  File.mkFile "busy.ts"
    "function pick(a) { if (a) {} if (a) {} if (a) {} if (a) {} if (a) {} if (a) {} if (a) {} if (a) {} if (a) {} if (a) {} }"
    "ts".

End QualityExtraNotions.

Module EntryPointNotions.
Import Js Regex.

(** [p] starts with one of the words [starts] followed by a dot, or ends
    with one of the words [ends] followed by [.ts], [.tsx], [.js] or
    [.jsx]. *)
Definition entryShaped (starts ends : list string) (p : string) : Prop :=
  (exists w s, In w starts /\ p = w ++ "." ++ s) \/
  (exists s w ext, In w ends /\ In ext ["ts"; "tsx"; "js"; "jsx"] /\
                   p = s ++ w ++ "." ++ ext).

(** The pattern that anchors the word [w] and a dot at the start. *)
Definition startPattern (w : string) : regex := rseq [RBol; lit w; RChar "."].

(** The tail shared by the patterns anchored at the end: a dot, then
    [ts], [tsx], [js] or [jsx], then the end of the path. *)
Definition extensionEnd : regex :=
  rseq [RChar "."; RGroup 1 (RAlt (rseq [lit "ts"; ROpt (RChar "x")])
                                  (rseq [lit "js"; ROpt (RChar "x")]));
        REol].

(** The pattern that anchors the word [w] and an extension at the end. *)
Definition endPattern (w : string) : regex := rseq [lit w; extensionEnd].

End EntryPointNotions.

Module ResolveNotions.
Import Js Regex DependencyAnalyzer.

(** A piece of a path: a string without [/]. *)
Definition segment (s : string) : Prop :=
  ~ In "/"%char (list_ascii_of_string s).

(** A piece that the normalisation loop keeps as it is: neither [.] nor
    [..]. *)
Definition plainSegment (s : string) : Prop :=
  segment s /\ s <> "." /\ s <> "..".


(** The outcome of probing the candidates built on [base]. *)
Definition probe (allFiles : list File.SourceFile) (base : string)
  : list string :=
  match firstPresent allFiles (possiblePaths base) with
  | Some p => [p]
  | None => []
  end.

End ResolveNotions.

(** * Properties of the matcher *)

Module RegexProofs.
Import Js Regex RegexNotions.

Section Failure.
Variable multiline : bool.

Lemma step_char_fail (st : mstate) (p : ascii -> bool)
    (k : mstate -> option mstate) :
  (forall s, k s = None) -> step_char st p k = None.
Proof.
  intros Hk. unfold step_char. destruct (rest st) as [|c s]; [reflexivity|].
  destruct (p c); [apply Hk | reflexivity].
Qed.

Lemma star_loop_fail body k (n : nat) (st : mstate) :
  failing body -> (forall s, k s = None) -> star_loop body k n st = None.
Proof.
  intros Hb Hk. revert st. induction n as [|n IH]; intros st; simpl; [apply Hk|].
  rewrite Hb; [simpl; apply Hk|].
  intros s. destruct (consumed st s =? 0); [reflexivity | apply IH].
Qed.

Lemma lazy_loop_fail body k (n : nat) (st : mstate) :
  failing body -> (forall s, k s = None) -> lazy_loop body k n st = None.
Proof.
  intros Hb Hk. revert st. induction n as [|n IH]; intros st; simpl; [apply Hk|].
  rewrite Hk. simpl. apply Hb.
  intros s. destruct (consumed st s =? 0); [reflexivity | apply IH].
Qed.

(** A continuation that always fails makes the whole match fail. *)
Lemma rmatch_fail (r : regex) : failing (rmatch multiline r).
Proof.
  unfold failing.
  induction r; intros st k Hk; cbn [rmatch];
    try (apply step_char_fail; assumption).
  - destruct (at_bol multiline st); [apply Hk | reflexivity].
  - destruct (at_eol multiline st); [apply Hk | reflexivity].
  - destruct (xorb _ _); [apply Hk | reflexivity].
  - apply Hk.
  - apply IHr1. intros s. now apply IHr2.
  - now rewrite IHr1, IHr2.
  - now apply star_loop_fail.
  - now apply lazy_loop_fail.
  - apply IHr. intros s. now apply star_loop_fail.
  - rewrite IHr; [simpl; apply Hk|].
    intros s. destruct (consumed st s =? 0); [reflexivity | apply Hk].
  - apply IHr. intros s. apply Hk.
Qed.

(** A pattern that fails at every position has no match at all. *)
Lemma match_all_from_never (r : regex) :
  (forall p s idx, match_here multiline r p s idx = None) ->
  forall s p idx skip, match_all_from multiline r p s idx skip = [].
Proof.
  intros H s. induction s as [|c s IH]; intros p idx [|skip]; simpl;
    rewrite ?H; auto.
Qed.

End Failure.

(** [$$\s*Q...] without the [m] flag, where [Q] is a character class: once
    [$] has held nothing is left for [Q]. *)
Lemma after_end_fail (items : list class_item) (tail : regex)
    (st : mstate) (k : mstate -> option mstate) :
  rmatch false (rseq [REol; REol; RStar s_; RSet items; tail]) st k = None.
Proof.
  destruct st as [p [|c s] cs]; reflexivity.
Qed.

Lemma never_seq (r1 r2 : regex) : never r2 -> never (RSeq r1 r2).
Proof.
  intros H st k. cbn [rmatch]. apply rmatch_fail. intros s. apply H.
Qed.

Lemma never_match_all (r : regex) :
  never r -> forall content, match_all false r content = [].
Proof.
  intros H content. unfold match_all. apply match_all_from_never.
  intros p s idx. unfold match_here. now rewrite H.
Qed.

(** ** The counters of the loops *)

Lemma agree_upto_le (L L' : nat) k1 k2 :
  L' <= L -> agree_upto L k1 k2 -> agree_upto L' k1 k2.
Proof. intros HL H st Hst. apply H. lia. Qed.

Lemma step_char_local (p : ascii -> bool) : local (fun st k => step_char st p k).
Proof.
  intros st k1 k2 H. unfold step_char.
  destruct (rest st) as [|c s] eqn:E; [reflexivity|].
  destruct (p c); [|reflexivity]. apply H. simpl. lia.
Qed.

Lemma star_loop_local body :
  local body -> forall k1 k2 n st,
    agree_upto (String.length (rest st)) k1 k2 ->
    star_loop body k1 n st = star_loop body k2 n st.
Proof.
  intros Hb k1 k2 n. induction n as [|n IH]; intros st H; simpl.
  - apply H. lia.
  - rewrite (H st) by lia. f_equal. apply Hb. intros st' Hst'.
    destruct (consumed st st' =? 0); [reflexivity|].
    apply IH. eapply agree_upto_le; eassumption.
Qed.

Lemma lazy_loop_local body :
  local body -> forall k1 k2 n st,
    agree_upto (String.length (rest st)) k1 k2 ->
    lazy_loop body k1 n st = lazy_loop body k2 n st.
Proof.
  intros Hb k1 k2 n. induction n as [|n IH]; intros st H; simpl.
  - apply H. lia.
  - rewrite (H st) by lia. f_equal.
    assert (E : body st (fun st' => if consumed st st' =? 0 then None
                                   else lazy_loop body k1 n st')
              = body st (fun st' => if consumed st st' =? 0 then None
                                   else lazy_loop body k2 n st')).
    { apply Hb. intros st' Hst'.
      destruct (consumed st st' =? 0); [reflexivity|].
      apply IH. eapply agree_upto_le; eassumption. }
    now rewrite E.
Qed.

(** The matcher hands to its continuation only states that are not further
    back in the input. *)
Lemma rmatch_local (multiline : bool) (r : regex) : local (rmatch multiline r).
Proof.
  unfold local. induction r; intros st k1 k2 H; cbn [rmatch];
    try (apply step_char_local; assumption).
  - destruct (at_bol multiline st); [apply H; lia | reflexivity].
  - destruct (at_eol multiline st); [apply H; lia | reflexivity].
  - destruct (xorb _ _); [apply H; lia | reflexivity].
  - apply H. lia.
  - apply IHr1. intros st' Hst'. apply IHr2.
    eapply agree_upto_le; eassumption.
  - now rewrite (IHr1 st k1 k2 H), (IHr2 st k1 k2 H).
  - now apply star_loop_local.
  - now apply lazy_loop_local.
  - apply IHr. intros st' Hst'. apply star_loop_local; [exact IHr|].
    eapply agree_upto_le; eassumption.
  - rewrite (H st) by lia. f_equal. apply IHr. intros st' Hst'.
    destruct (consumed st st' =? 0); [reflexivity | now apply H].
  - apply IHr. intros st' Hst'. apply H. simpl. exact Hst'.
Qed.

(** Any counter above the number of characters left gives the same result:
    the bound of the loops is never what stops them. *)
Lemma star_loop_fuel body k :
  local body -> forall n m st,
    String.length (rest st) < n -> String.length (rest st) < m ->
    star_loop body k n st = star_loop body k m st.
Proof.
  intros Hb n. induction n as [|n IH]; intros m st Hn Hm; [lia|].
  destruct m as [|m]; [lia|]. simpl. f_equal. apply Hb. intros st' Hst'.
  destruct (consumed st st' =? 0) eqn:E; [reflexivity|].
  apply Nat.eqb_neq in E. unfold consumed in E. apply IH; lia.
Qed.

Lemma lazy_loop_fuel body k :
  local body -> forall n m st,
    String.length (rest st) < n -> String.length (rest st) < m ->
    lazy_loop body k n st = lazy_loop body k m st.
Proof.
  intros Hb n. induction n as [|n IH]; intros m st Hn Hm; [lia|].
  destruct m as [|m]; [lia|]. simpl. f_equal.
  assert (E : body st (fun st' => if consumed st st' =? 0 then None
                                 else lazy_loop body k n st')
            = body st (fun st' => if consumed st st' =? 0 then None
                                 else lazy_loop body k m st')).
  { apply Hb. intros st' Hst'.
    destruct (consumed st st' =? 0) eqn:E; [reflexivity|].
    apply Nat.eqb_neq in E. unfold consumed in E. apply IH; lia. }
  now rewrite E.
Qed.

(** [r*] and [r*?] with any larger counter. *)
Lemma star_fuel_irrelevant (multiline : bool) (r : regex) k (st : mstate) (n : nat) :
  String.length (rest st) < n ->
  star_loop (rmatch multiline r) k n st = rmatch multiline (RStar r) st k /\
  lazy_loop (rmatch multiline r) k n st = rmatch multiline (RLazyStar r) st k.
Proof.
  intros H. cbn [rmatch]. split.
  - apply star_loop_fuel; [apply rmatch_local | exact H | lia].
  - apply lazy_loop_fuel; [apply rmatch_local | exact H | lia].
Qed.

(** ** Matches consume input *)

Lemma or_else_Some (a : option mstate) (b : unit -> option mstate) (e : mstate) :
  or_else a b = Some e -> a = Some e \/ b tt = Some e.
Proof. destruct a; simpl; auto. Qed.

Lemma step_char_advances (p : ascii -> bool) :
  advances 1 (fun st k => step_char st p k).
Proof.
  intros st k e. unfold step_char.
  destruct (rest st) as [|c s] eqn:E; [discriminate|].
  destruct (p c); [|discriminate]. intros H.
  eexists. split; [|exact H]. simpl. lia.
Qed.

Lemma star_loop_advances body k (n : nat) :
  advances 0 body -> forall st e,
    star_loop body k n st = Some e ->
    exists st', String.length (rest st') <= String.length (rest st) /\
                k st' = Some e.
Proof.
  intros Hb. induction n as [|n IH]; intros st e; simpl.
  - intros H. exists st. split; [lia | exact H].
  - intros H. apply or_else_Some in H as [H|H].
    + apply Hb in H as (st1 & Hlen & H).
      destruct (consumed st st1 =? 0); [discriminate|].
      apply IH in H as (st' & Hlen' & H). exists st'. split; [lia | exact H].
    + exists st. split; [lia | exact H].
Qed.

Lemma lazy_loop_advances body k (n : nat) :
  advances 0 body -> forall st e,
    lazy_loop body k n st = Some e ->
    exists st', String.length (rest st') <= String.length (rest st) /\
                k st' = Some e.
Proof.
  intros Hb. induction n as [|n IH]; intros st e; simpl.
  - intros H. exists st. split; [lia | exact H].
  - intros H. apply or_else_Some in H as [H|H].
    + exists st. split; [lia | exact H].
    + apply Hb in H as (st1 & Hlen & H).
      destruct (consumed st st1 =? 0); [discriminate|].
      apply IH in H as (st' & Hlen' & H). exists st'. split; [lia | exact H].
Qed.

Lemma advances_le (n m : nat) body : m <= n -> advances n body -> advances m body.
Proof.
  intros Hle H st k e He. destruct (H st k e He) as (st' & Hlen & Hk).
  exists st'. split; [lia | exact Hk].
Qed.

(** A match of [r] consumes at least [min_len r] characters. *)
Lemma rmatch_advances (multiline : bool) (r : regex) :
  advances (min_len r) (rmatch multiline r).
Proof.
  induction r; cbn [rmatch min_len];
    try (apply step_char_advances).
  - intros st k e. destruct (at_bol multiline st); [|discriminate].
    intros H. exists st. split; [lia | exact H].
  - intros st k e. destruct (at_eol multiline st); [|discriminate].
    intros H. exists st. split; [lia | exact H].
  - intros st k e. destruct (xorb _ _); [|discriminate].
    intros H. exists st. split; [lia | exact H].
  - intros st k e H. exists st. split; [lia | exact H].
  - intros st k e H.
    apply IHr1 in H as (st1 & Hlen1 & H).
    apply IHr2 in H as (st2 & Hlen2 & H).
    exists st2. split; [lia | exact H].
  - intros st k e H. apply or_else_Some in H as [H|H].
    + apply IHr1 in H as (st' & Hlen & H). exists st'. split; [lia | exact H].
    + apply IHr2 in H as (st' & Hlen & H). exists st'. split; [lia | exact H].
  - intros st k e H.
    apply star_loop_advances in H as (st' & Hlen & H);
      [|eapply advances_le; [|exact IHr]; lia].
    exists st'. split; [lia | exact H].
  - intros st k e H.
    apply lazy_loop_advances in H as (st' & Hlen & H);
      [|eapply advances_le; [|exact IHr]; lia].
    exists st'. split; [lia | exact H].
  - intros st k e H.
    apply IHr in H as (st1 & Hlen1 & H).
    apply star_loop_advances in H as (st' & Hlen & H);
      [|eapply advances_le; [|exact IHr]; lia].
    exists st'. split; [lia | exact H].
  - intros st k e H. apply or_else_Some in H as [H|H].
    + apply IHr in H as (st' & Hlen & H).
      destruct (consumed st st' =? 0); [discriminate|].
      exists st'. split; [lia | exact H].
    + exists st. split; [lia | exact H].
  - intros st k e H.
    apply IHr in H as (st' & Hlen & H).
    eexists. split; [|exact H]. simpl. exact Hlen.
Qed.

Lemma length_take (n : nat) (s : string) :
  n <= String.length s -> String.length (take n s) = n.
Proof.
  revert s. induction n as [|n IH]; intros [|c s]; simpl; intros H;
    try reflexivity; try lia.
  rewrite IH; lia.
Qed.

(** The text of a match has at least [min_len r] characters. *)
Lemma match_here_min_len (multiline : bool) (r : regex) (p : option ascii)
    (s : string) (idx : nat) (m : rmatch_result) :
  match_here multiline r p s idx = Some m ->
  min_len r <= String.length (m_text m).
Proof.
  unfold match_here.
  destruct (rmatch multiline r (MState p s []) (fun st => Some st)) as [e|] eqn:E;
    [|discriminate].
  intros [= <-]. simpl.
  apply rmatch_advances in E as (st' & Hlen & [= ->]). simpl in Hlen.
  rewrite length_take; lia.
Qed.

(** Every pattern that the dependency analyzer runs in a loop
    [while ((match = re.exec(content)) !== null)] consumes at least one
    character at each match, so the loop advances. *)
Lemma exec_loops_advance :
  Forall (fun r => 0 < min_len r)
    [DependencyAnalyzer.es6ImportRegex; DependencyAnalyzer.dynamicImportRegex;
     DependencyAnalyzer.requireRegex; DependencyAnalyzer.pythonImportRegex;
     DependencyAnalyzer.javaImportRegex; DependencyAnalyzer.phpUseRegex;
     DependencyAnalyzer.phpRequireRegex; DependencyAnalyzer.namedExportRegex;
     DependencyAnalyzer.reExportRegex].
Proof. repeat constructor. Qed.

End RegexProofs.

(** * Properties of the dependency analyzer *)

Module DependencyProofs.
Import Js Regex DependencyAnalyzer DependencyNotions.

(** ** The node map *)

Lemma map_get_set (m : NodeMap) (k k' : string) (v : DependencyNode) :
  map_get (map_set m k v) k' = if String.eqb k k' then Some v else map_get m k'.
Proof.
  induction m as [|[k0 v0] m IH]; simpl.
  - reflexivity.
  - destruct (String.eqb k0 k) eqn:E0; simpl.
    + apply String.eqb_eq in E0. rewrite E0.
      destruct (String.eqb k k'); reflexivity.
    + rewrite IH. destruct (String.eqb k0 k') eqn:E1; [|reflexivity].
      apply String.eqb_eq in E1. rewrite <- E1, String.eqb_sym, E0. reflexivity.
Qed.

Lemma map_get_In (m : NodeMap) (k : string) (v : DependencyNode) :
  map_get m k = Some v -> In (k, v) m.
Proof.
  induction m as [|[k0 v0] m IH]; simpl; [discriminate|].
  destruct (String.eqb k0 k) eqn:E.
  - apply String.eqb_eq in E; subst. intros [= ->]. now left.
  - intros H. right. now apply IH.
Qed.

Lemma In_map_get (m : NodeMap) (k : string) (v : DependencyNode) :
  NoDup (map_keys m) -> In (k, v) m -> map_get m k = Some v.
Proof.
  induction m as [|[k0 v0] m IH]; simpl; [tauto|].
  intros Hnd [Heq | Hin].
  - injection Heq as -> ->. now rewrite String.eqb_refl.
  - inversion Hnd as [|? ? Hnotin Hnd']; subst.
    destruct (String.eqb k0 k) eqn:E.
    + apply String.eqb_eq in E; subst k0. exfalso. apply Hnotin.
      unfold map_keys. apply in_map_iff. now exists (k, v).
    + now apply IH.
Qed.

Lemma map_keys_set (m : NodeMap) (k : string) (v : DependencyNode) :
  map_keys (map_set m k v) =
  if map_has m k then map_keys m else (map_keys m ++ [k])%list.
Proof.
  unfold map_has, map_keys.
  induction m as [|[k0 v0] m IH]; simpl; [reflexivity|].
  destruct (String.eqb k0 k) eqn:E; simpl; [reflexivity|].
  rewrite IH.
  now destruct (map_get m k).
Qed.

Lemma map_has_In (m : NodeMap) (k : string) :
  map_has m k = true <-> In k (map_keys m).
Proof.
  unfold map_has, map_keys.
  induction m as [|[k0 v0] m IH]; simpl.
  - split; [discriminate | tauto].
  - destruct (String.eqb k0 k) eqn:E.
    + apply String.eqb_eq in E. subst. split; auto.
    + apply String.eqb_neq in E. rewrite IH. split; [auto | intros [?|?]; congruence].
Qed.

Lemma map_set_NoDup (m : NodeMap) (k : string) (v : DependencyNode) :
  NoDup (map_keys m) -> NoDup (map_keys (map_set m k v)).
Proof.
  intros Hnd. rewrite map_keys_set.
  destruct (map_has m k) eqn:E; [assumption|].
  apply NoDup_app; [assumption | repeat constructor; simpl; tauto |].
  intros x Hin [<-|[]]. apply map_has_In in Hin. congruence.
Qed.

(** ** The first pass *)

Lemma resolveImportPaths_in_files imports currentFile allFiles d :
  In d (resolveImportPaths imports currentFile allFiles) ->
  In d (map File.path allFiles).
Proof.
  unfold resolveImportPaths. rewrite in_flat_map. intros (imp & _ & H).
  unfold resolveImport in H.
  destruct (isExternalDependency imp); [contradiction|].
  destruct (startsWith imp "."); [|contradiction].
  destruct (firstPresent _ _) as [p|] eqn:E; [|contradiction].
  destruct H as [<-|[]].
  unfold firstPresent in E. apply find_some in E as [_ E].
  apply existsb_exists in E as (f & Hf & Heq).
  apply String.eqb_eq in Heq. subst p. now apply in_map.
Qed.

Lemma firstPass_fold allFiles (fs : list File.SourceFile) (acc : NodeMap) :
  NoDup (map_keys acc) ->
  (forall k v, In (k, v) acc -> freshNode allFiles k v) ->
  let m := fold_left (firstPassStep allFiles) fs acc in
  NoDup (map_keys m) /\
  (forall k v, In (k, v) m -> freshNode allFiles k v) /\
  (forall k, In k (map_keys m) <-> In k (map_keys acc) \/ In k (map File.path fs)).
Proof.
  revert acc. induction fs as [|f fs IH]; intros acc Hnd Hfresh; simpl.
  - split; [assumption | split; [assumption | intros k; tauto]].
  - destruct (IH (firstPassStep allFiles acc f)) as (H1 & H2 & H3).
    + now apply map_set_NoDup.
    + intros k v Hin. unfold firstPassStep in Hin.
      apply In_map_get in Hin; [|now apply map_set_NoDup].
      rewrite map_get_set in Hin.
      destruct (String.eqb (File.path f) k) eqn:E.
      * apply String.eqb_eq in E. injection Hin as <-.
        split; [exact E | split; [reflexivity|]]. simpl. intros d.
        apply resolveImportPaths_in_files.
      * apply Hfresh. now apply map_get_In.
    + split; [assumption | split; [assumption|]].
      intros k. rewrite H3. unfold firstPassStep. rewrite map_keys_set.
      destruct (map_has acc (File.path f)) eqn:E.
      * apply map_has_In in E. split; [tauto|].
        intros [?|[<-|?]]; auto.
      * rewrite in_app_iff. simpl. tauto.
Qed.

Lemma firstPass_spec (files : list File.SourceFile) :
  NoDup (map_keys (firstPass files)) /\
  (forall k v, In (k, v) (firstPass files) -> freshNode files k v) /\
  (forall k, In k (map_keys (firstPass files)) <-> In k (map File.path files)).
Proof.
  destruct (@firstPass_fold files files []) as (H1 & H2 & H3).
  - constructor.
  - intros k v [].
  - change (firstPass files) with (fold_left (firstPassStep files) files []).
    split; [assumption | split; [assumption|]].
    intros k. rewrite H3. simpl. tauto.
Qed.


(** ** The second pass *)

Lemma withDependents_nil v : withDependents [] v = v.
Proof. destruct v; unfold withDependents; simpl. now rewrite app_nil_r. Qed.

Lemma withDependents_app ps qs v :
  withDependents qs (withDependents ps v) = withDependents (ps ++ qs) v.
Proof. unfold withDependents; simpl. now rewrite app_assoc. Qed.

Lemma map_get_addDependent (m : NodeMap) (dep p k : string) :
  map_get (addDependent m dep p) k =
  option_map (withDependents (if String.eqb dep k then [p] else []))
             (map_get m k).
Proof.
  unfold addDependent.
  destruct (map_get m dep) as [depNode|] eqn:E.
  - rewrite map_get_set. destruct (String.eqb dep k) eqn:Ek.
    + apply String.eqb_eq in Ek. subst k. rewrite E. reflexivity.
    + destruct (map_get m k); simpl; [|reflexivity].
      now rewrite withDependents_nil.
  - destruct (String.eqb dep k) eqn:Ek.
    + apply String.eqb_eq in Ek. subst k. now rewrite E.
    + destruct (map_get m k); simpl; [|reflexivity].
      now rewrite withDependents_nil.
Qed.

Lemma option_map_withDependents ps qs (o : option DependencyNode) :
  option_map (withDependents qs) (option_map (withDependents ps) o) =
  option_map (withDependents (ps ++ qs)) o.
Proof. destruct o; simpl; [|reflexivity]. now rewrite withDependents_app. Qed.

Lemma map_get_addDependents (deps : list string) (p k : string) (m : NodeMap) :
  map_get (fold_left (fun acc dep => addDependent acc dep p) deps m) k =
  option_map (withDependents (incomingOf deps p k)) (map_get m k).
Proof.
  revert m. induction deps as [|dep deps IH]; intros m; simpl.
  - destruct (map_get m k); simpl; [|reflexivity]. now rewrite withDependents_nil.
  - rewrite IH, map_get_addDependent, option_map_withDependents. reflexivity.
Qed.

Lemma map_get_secondPass_fold (es m : NodeMap) (k : string) :
  map_get (fold_left secondPassStep es m) k =
  option_map (withDependents (incoming es k)) (map_get m k).
Proof.
  revert m. induction es as [|kv es IH]; intros m; simpl.
  - destruct (map_get m k); simpl; [|reflexivity]. now rewrite withDependents_nil.
  - rewrite IH. unfold secondPassStep at 1.
    rewrite map_get_addDependents, option_map_withDependents. reflexivity.
Qed.

(** After the second pass a node has the path, imports, exports and
    dependencies it had, and the incoming paths appended to its dependents. *)
Lemma map_get_secondPass (m : NodeMap) (k : string) :
  map_get (secondPass m) k =
  option_map (withDependents (incoming m k)) (map_get m k).
Proof. apply (map_get_secondPass_fold m m k). Qed.

Lemma In_incoming (m : NodeMap) (k p : string) :
  In p (incoming m k) <->
  exists v, In (p, v) m /\ In k (dependencies v).
Proof.
  unfold incoming, incomingOf. rewrite in_flat_map. split.
  - intros ([p' v] & Hin & H). simpl in H.
    apply in_flat_map in H as (dep & Hdep & H).
    destruct (String.eqb dep k) eqn:E; [|contradiction].
    apply String.eqb_eq in E. subst dep. destruct H as [<-|[]].
    now exists v.
  - intros (v & Hin & Hdep). exists (p, v). split; [assumption|]. simpl.
    apply in_flat_map. exists k. split; [assumption|].
    rewrite String.eqb_refl. now left.
Qed.

(** The keys are not changed by the second pass. *)
Lemma map_keys_addDependent (m : NodeMap) (dep p : string) :
  map_keys (addDependent m dep p) = map_keys m.
Proof.
  unfold addDependent. destruct (map_get m dep) eqn:E; [|reflexivity].
  rewrite map_keys_set. unfold map_has. now rewrite E.
Qed.

Lemma map_keys_secondPass_fold (es m : NodeMap) :
  map_keys (fold_left secondPassStep es m) = map_keys m.
Proof.
  revert m. induction es as [|kv es IH]; intros m; simpl; [reflexivity|].
  rewrite IH. unfold secondPassStep.
  generalize (dependencies (snd kv)). intros deps. revert m.
  induction deps as [|d deps IHd]; intros m; simpl; [reflexivity|].
  now rewrite IHd, map_keys_addDependent.
Qed.

Lemma map_keys_secondPass (m : NodeMap) :
  map_keys (secondPass m) = map_keys m.
Proof. apply map_keys_secondPass_fold. Qed.

(** ** The nodes of the graph *)

Lemma nodes_NoDup (files : list File.SourceFile) :
  NoDup (map_keys (nodes (analyzeDependencies files))).
Proof. simpl. rewrite map_keys_secondPass. apply firstPass_spec. Qed.

(** A node of the graph comes from a node of the first pass. *)
Lemma nodes_get (files : list File.SourceFile) (k : string) (v : DependencyNode) :
  map_get (nodes (analyzeDependencies files)) k = Some v ->
  exists v0, map_get (firstPass files) k = Some v0 /\
             freshNode files k v0 /\
             v = withDependents (incoming (firstPass files) k) v0.
Proof.
  simpl. rewrite map_get_secondPass.
  destruct (map_get (firstPass files) k) as [v0|] eqn:E; simpl; [|discriminate].
  intros [= <-]. exists v0. split; [reflexivity | split; [|reflexivity]].
  apply firstPass_spec. now apply map_get_In.
Qed.

(** C3: after [analyzeDependencies], the dependents of a node [n] are exactly
    the paths [m] of the nodes whose dependencies contain the path of [n]. *)
Theorem dependents_sound_complete (files : list File.SourceFile)
    (k : string) (n : DependencyNode) :
  map_get (nodes (analyzeDependencies files)) k = Some n ->
  forall m : string,
    In m (dependents n) <->
    exists mnode, map_get (nodes (analyzeDependencies files)) m = Some mnode /\
                  In (path n) (dependencies mnode).
Proof.
  intros Hn m.
  destruct (nodes_get _ _ Hn) as (v0 & Hv0 & (Hpath & Hdeps & _) & ->).
  simpl. rewrite Hdeps, Hpath. simpl. rewrite In_incoming.
  pose proof (firstPass_spec files) as (Hnd & _ & _).
  split.
  - intros (v & Hin & Hk).
    exists (withDependents (incoming (firstPass files) m) v).
    rewrite map_get_secondPass, (In_map_get _ _ _ Hnd Hin). simpl. now split.
  - intros (mnode & Hm & Hk).
    rewrite map_get_secondPass in Hm.
    destruct (map_get (firstPass files) m) as [v|] eqn:E; simpl in Hm; [|discriminate].
    injection Hm as <-. exists v. split; [now apply map_get_In | exact Hk].
Qed.


Lemma flat_map_nil {A B : Type} (f : A -> list B) (l : list A) :
  (forall x, In x l -> f x = []) -> flat_map f l = [].
Proof.
  induction l as [|a l IH]; intros H; simpl; [reflexivity|].
  rewrite (H a (or_introl eq_refl)), IH; [reflexivity|].
  intros x Hx. apply H. now right.
Qed.

(** Every dependency of a node of the graph is the key of a node. *)
Lemma dependencies_are_nodes (files : list File.SourceFile)
    (k : string) (v : DependencyNode) :
  In (k, v) (nodes (analyzeDependencies files)) ->
  forall d, In d (dependencies v) ->
            map_has (nodes (analyzeDependencies files)) d = true.
Proof.
  intros Hin d Hd.
  apply In_map_get in Hin; [|apply nodes_NoDup].
  destruct (nodes_get _ _ Hin) as (v0 & _ & (_ & _ & Hfiles) & ->).
  simpl in Hd. apply map_has_In. simpl. rewrite map_keys_secondPass.
  apply firstPass_spec. now apply Hfiles.
Qed.

(** The unresolved specifiers are dropped by [resolveImportPaths], so the
    test [!nodes.has(dep)] never succeeds: no missing dependency is ever
    reported. *)
Lemma missingDependencies_always_empty (files : list File.SourceFile) :
  missingDependencies (analyzeDependencies files) = [].
Proof.
  change (missingDependencies (analyzeDependencies files))
    with (detectMissing (nodes (analyzeDependencies files))).
  unfold detectMissing.
  apply flat_map_nil. intros [k v] Hin. cbn [fst snd].
  apply flat_map_nil. intros d Hd.
  now rewrite (@dependencies_are_nodes files k v Hin d Hd).
Qed.

(** ** Unused files *)

Lemma In_detectUnused (m : NodeMap) (p : string) :
  In p (detectUnused m) <->
  exists v, In (p, v) m /\ dependents v = [] /\ isEntryPoint p = false.
Proof.
  unfold detectUnused. rewrite in_flat_map. split.
  - intros ([k v] & Hin & H). simpl in H.
    destruct (dependents v) eqn:Ed; simpl in H; [|contradiction].
    destruct (isEntryPoint k) eqn:Ee; simpl in H; [contradiction|].
    destruct H as [<-|[]]. now exists v.
  - intros (v & Hin & Hd & He). exists (p, v). split; [assumption|]. simpl.
    rewrite Hd, He. now left.
Qed.

Lemma index_ts_is_entry_point : isEntryPoint "index.ts" = true.
Proof. reflexivity. Qed.

(** Whatever the edges of the graph, [index.ts] is not reported. *)
Lemma index_ts_never_unused (m : NodeMap) : ~ In "index.ts" (detectUnused m).
Proof.
  rewrite In_detectUnused. intros (v & _ & _ & H).
  rewrite index_ts_is_entry_point in H. discriminate.
Qed.

(** C7: a file whose node has no dependents and whose path matches no
    entry-point pattern is listed in [unusedFiles]; a file of path
    [index.ts] is not, whatever its edges. *)
Theorem unused_files_spec (files : list File.SourceFile) :
  (forall (p : string) (n : DependencyNode),
      map_get (nodes (analyzeDependencies files)) p = Some n ->
      dependents n = [] ->
      isEntryPoint p = false ->
      In p (unusedFiles (analyzeDependencies files))) /\
  ~ In "index.ts" (unusedFiles (analyzeDependencies files)).
Proof.
  split.
  - intros p n Hn Hd He.
    change (unusedFiles (analyzeDependencies files))
      with (detectUnused (nodes (analyzeDependencies files))).
    apply In_detectUnused. exists n.
    split; [now apply map_get_In | now split].
  - apply index_ts_never_unused.
Qed.

(** ** Cycle detection terminates within its bound *)

Lemma mem_In (x : string) (l : list string) : mem x l = true <-> In x l.
Proof.
  unfold mem. rewrite existsb_exists. split.
  - intros (y & Hy & E). apply String.eqb_eq in E. now subst.
  - intros H. exists x. split; [assumption | apply String.eqb_refl].
Qed.

Lemma mem_set_add (x y : string) (l : list string) :
  mem x (set_add y l) = String.eqb x y || mem x l.
Proof.
  unfold set_add. destruct (mem y l) eqn:E.
  - destruct (String.eqb x y) eqn:Exy; [|reflexivity].
    apply String.eqb_eq in Exy. subst. now rewrite E.
  - unfold mem. rewrite existsb_app. simpl. rewrite orb_false_r. apply orb_comm.
Qed.

Lemma unvisitedCount_grows (U vis vis' : list string) :
  grows vis vis' -> unvisitedCount U vis' <= unvisitedCount U vis.
Proof.
  intros H. unfold unvisitedCount.
  induction U as [|u U IH]; simpl; [lia|].
  destruct (mem u vis) eqn:E.
  - rewrite (H _ E). simpl. exact IH.
  - simpl. destruct (mem u vis'); simpl; lia.
Qed.

Lemma unvisitedCount_add (U vis vis' : list string) (p : string) :
  In p U -> mem p vis = false -> grows vis vis' -> mem p vis' = true ->
  unvisitedCount U vis' < unvisitedCount U vis.
Proof.
  intros Hin Hp Hg Hp'. unfold unvisitedCount.
  induction U as [|u U IH]; simpl; [contradiction|].
  destruct Hin as [->|Hin].
  - rewrite Hp, Hp'. simpl.
    pose proof (unvisitedCount_grows U Hg) as H. unfold unvisitedCount in H. lia.
  - specialize (IH Hin).
    destruct (mem u vis) eqn:E.
    + rewrite (Hg _ E). simpl. exact IH.
    + simpl. destruct (mem u vis'); simpl; lia.
Qed.

Section DfsTotal.
Variable nodes : NodeMap.

Local Abbreviation U := (universe nodes).

Lemma key_in_universe (k : string) : In k (map_keys nodes) -> In k U.
Proof. intros H. unfold universe. apply in_or_app. now left. Qed.

Lemma dep_in_universe (k : string) (v : DependencyNode) (d : string) :
  map_get nodes k = Some v -> In d (dependencies v) -> In d U.
Proof.
  intros Hk Hd. unfold universe. apply in_or_app. right.
  apply in_flat_map. exists (k, v). split; [now apply map_get_In | exact Hd].
Qed.

Lemma forDeps_total (fuel : nat) (cp : list string) :
  dfsOk nodes fuel ->
  forall deps st,
    (forall d, In d deps -> In d U) ->
    unvisitedCount U (visited st) < fuel ->
    exists st', forDeps (fun dep st => dfs nodes fuel dep cp st) cp deps st = Some st' /\
                grows (visited st) (visited st').
Proof.
  intros Hrec deps. induction deps as [|d deps IH]; intros st HU Hlt; simpl.
  - exists st. split; [reflexivity | now intros x].
  - assert (HU' : forall d', In d' deps -> In d' U) by (intros; apply HU; now right).
    destruct (mem d (visited st)) eqn:Ed; simpl.
    + destruct (mem d (recursionStack st)).
      * destruct (IH (mkDfs (visited st) (recursionStack st)
                       (recordCycle cp d (circular st))) HU' Hlt)
          as (st' & H1 & H2).
        exists st'. now split.
      * apply IH; assumption.
    + destruct (Hrec d cp st (HU d (or_introl eq_refl)) Ed Hlt) as (st1 & H1 & Hg & Hd).
      rewrite H1.
      destruct (IH st1 HU') as (st' & H2 & Hg').
      * pose proof (unvisitedCount_grows U Hg). lia.
      * exists st'. split; [assumption|]. intros x Hx. apply Hg', Hg, Hx.
Qed.

Lemma dfs_total (fuel : nat) : dfsOk nodes fuel.
Proof.
  induction fuel as [|fuel IH]; intros p cp st Hin Hp Hlt; [lia|].
  simpl.
  set (st0 := mkDfs (set_add p (visited st)) (set_add p (recursionStack st))
                    (circular st)).
  assert (Hg0 : grows (visited st) (visited st0)).
  { intros x Hx. simpl. rewrite mem_set_add, Hx. apply orb_true_r. }
  assert (Hp0 : mem p (visited st0) = true).
  { simpl. rewrite mem_set_add, String.eqb_refl. reflexivity. }
  assert (Hlt0 : unvisitedCount U (visited st0) < fuel).
  { pose proof (unvisitedCount_add U p Hin Hp Hg0 Hp0). lia. }
  destruct (map_get nodes p) as [node|] eqn:En.
  - destruct (@forDeps_total fuel (cp ++ [p])%list IH (dependencies node) st0)
      as (st' & H1 & Hg'); [| exact Hlt0 |].
    + intros d Hd. eapply dep_in_universe; eassumption.
    + rewrite H1. eexists. split; [reflexivity|]. simpl. split.
      * intros x Hx. apply Hg', Hg0, Hx.
      * apply Hg', Hp0.
  - eexists. split; [reflexivity|]. simpl. split; [exact Hg0 | exact Hp0].
Qed.

Lemma dfsRoots_total (keys : list string) (st : dfs_state) :
  (forall k, In k keys -> In k U) ->
  exists st', dfsRoots nodes (dfsFuel nodes) keys st = Some st'.
Proof.
  revert st. induction keys as [|k keys IH]; intros st HU; cbn [dfsRoots].
  - now exists st.
  - assert (HU' : forall k', In k' keys -> In k' U) by (intros; apply HU; now right).
    destruct (mem k (visited st)) eqn:E; cbn [negb]; [now apply IH|].
    destruct (@dfs_total (dfsFuel nodes) k [] st) as (st1 & H1 & _).
    + apply HU. now left.
    + exact E.
    + unfold dfsFuel, unvisitedCount.
      pose proof (filter_length_le (fun x => negb (mem x (visited st))) (universe nodes)).
      lia.
    + rewrite H1. now apply IH.
Qed.

(** The bound of [runDfs] is never reached: the traversal always returns. *)
Lemma runDfs_total : exists st, runDfs nodes = Some st.
Proof. apply dfsRoots_total. intros k. apply key_in_universe. Qed.

(** [detectCircularDependencies] returns the cycles of the final state. *)
Lemma detectCircularDependencies_returns :
  exists st, runDfs nodes = Some st /\
             detectCircularDependencies nodes = circular st.
Proof.
  destruct runDfs_total as (st & H). exists st. split; [exact H|].
  unfold detectCircularDependencies. now rewrite H.
Qed.

End DfsTotal.


(** ** Graphs without edges *)

Lemma In_map_set (m : NodeMap) (k k' : string) (v v' : DependencyNode) :
  In (k, v) (map_set m k' v') -> (k = k' /\ v = v') \/ In (k, v) m.
Proof.
  induction m as [|[k0 v0] m IH]; simpl.
  - intros [[= <- <-]|[]]. now left.
  - destruct (String.eqb k0 k') eqn:E; simpl.
    + apply String.eqb_eq in E. subst k0.
      intros [[= <- <-]|H]; [now left | right; now right].
    + intros [H|H]; [right; now left|].
      destruct (IH H) as [?|?]; [now left | right; now right].
Qed.

Lemma firstPass_fold_from_file allFiles (fs : list File.SourceFile)
    (acc : NodeMap) (k : string) (v : DependencyNode) :
  In (k, v) (fold_left (firstPassStep allFiles) fs acc) ->
  In (k, v) acc \/
  exists f, In f fs /\ k = File.path f /\ v = nodeOfFile allFiles f.
Proof.
  revert acc. induction fs as [|f fs IH]; intros acc; simpl; [now left|].
  intros H. destruct (IH _ H) as [H1|(f' & Hf' & Hk & Hv)].
  - unfold firstPassStep in H1. apply In_map_set in H1 as [[-> ->]|H1].
    + right. exists f. split; [now left | now split].
    + now left.
  - right. exists f'. split; [now right | now split].
Qed.

Lemma firstPass_from_file (files : list File.SourceFile)
    (k : string) (v : DependencyNode) :
  In (k, v) (firstPass files) ->
  exists f, In f files /\ k = File.path f /\ v = nodeOfFile files f.
Proof.
  intros H.
  destruct (@firstPass_fold_from_file files files [] k v H) as [[]|H']; exact H'.
Qed.

Lemma secondPass_fold_no_edges (es acc : NodeMap) :
  (forall k v, In (k, v) es -> dependencies v = []) ->
  fold_left secondPassStep es acc = acc.
Proof.
  induction es as [|[k v] es IH]; intros H; simpl; [reflexivity|].
  unfold secondPassStep at 2. simpl.
  rewrite (H k v (or_introl eq_refl)). simpl. apply IH.
  intros k' v' Hin. apply (H k' v'). now right.
Qed.

Lemma secondPass_no_edges (m : NodeMap) :
  (forall k v, In (k, v) m -> dependencies v = []) -> secondPass m = m.
Proof. apply secondPass_fold_no_edges. Qed.

Lemma dfs_no_edges (m : NodeMap) (fuel : nat) (p : string)
    (cp : list string) (st st' : dfs_state) :
  (forall k v, In (k, v) m -> dependencies v = []) ->
  dfs m fuel p cp st = Some st' -> circular st' = circular st.
Proof.
  intros H. destruct fuel as [|fuel]; simpl; [discriminate|].
  destruct (map_get m p) as [node|] eqn:E.
  - rewrite (H p node (map_get_In _ _ E)). simpl. now intros [= <-].
  - now intros [= <-].
Qed.

Lemma dfsRoots_no_edges (m : NodeMap) (fuel : nat) (keys : list string)
    (st st' : dfs_state) :
  (forall k v, In (k, v) m -> dependencies v = []) ->
  dfsRoots m fuel keys st = Some st' -> circular st' = circular st.
Proof.
  intros H. revert st. induction keys as [|k keys IH]; intros st; cbn [dfsRoots].
  - now intros [= <-].
  - destruct (negb (mem k (visited st))); [|apply IH].
    destruct (dfs m fuel k [] st) as [st1|] eqn:E; [|discriminate].
    intros H'. rewrite (IH _ H'). eapply dfs_no_edges; eassumption.
Qed.

(** A graph in which no node has a dependency has no cycle. *)
Lemma no_edges_no_cycles (m : NodeMap) :
  (forall k v, In (k, v) m -> dependencies v = []) ->
  detectCircularDependencies m = [].
Proof.
  intros H. unfold detectCircularDependencies, runDfs.
  destruct (dfsRoots _ _ _ _) as [st|] eqn:E; [|reflexivity].
  eapply dfsRoots_no_edges in E; [exact E | exact H].
Qed.

Lemma extractImports_empty : extractImports EmptyString = [].
Proof. reflexivity. Qed.

Lemma extractExports_empty : extractExports EmptyString = [].
Proof. reflexivity. Qed.

(** The graph of a set of files that are all empty: bare nodes only. *)
Lemma empty_contents_nodes (files : list File.SourceFile) :
  (forall f, In f files -> File.content f = EmptyString) ->
  nodes (analyzeDependencies files) = firstPass files /\
  forall k v, In (k, v) (firstPass files) -> v = mkNode k [] [] [] [].
Proof.
  intros Hempty.
  assert (Hbare : forall k v, In (k, v) (firstPass files) -> v = mkNode k [] [] [] []).
  { intros k v Hin.
    apply firstPass_from_file in Hin as (f & Hf & -> & ->).
    unfold nodeOfFile. rewrite (Hempty f Hf).
    rewrite extractImports_empty, extractExports_empty. reflexivity. }
  split; [|exact Hbare].
  simpl. apply secondPass_no_edges.
  intros k v Hin. now rewrite (Hbare k v Hin).
Qed.

Lemma detectUnused_bare (m : NodeMap) :
  (forall k v, In (k, v) m -> v = mkNode k [] [] [] []) ->
  detectUnused m = filter (fun p => negb (isEntryPoint p)) (map_keys m).
Proof.
  unfold detectUnused, map_keys.
  induction m as [|[k v] m IH]; intros H; simpl; [reflexivity|].
  rewrite (H k v (or_introl eq_refl)). simpl.
  rewrite IH by (intros k' v' Hin; apply H; now right).
  now destruct (isEntryPoint k).
Qed.

(** For files that are all empty there is no cycle and no missing
    dependency, and the unused files are the paths that match no
    entry-point pattern. *)
Lemma analyzeDependencies_empty_contents (files : list File.SourceFile) :
  (forall f, In f files -> File.content f = EmptyString) ->
  circularDependencies (analyzeDependencies files) = [] /\
  missingDependencies (analyzeDependencies files) = [] /\
  unusedFiles (analyzeDependencies files) =
    filter (fun p => negb (isEntryPoint p))
           (map_keys (nodes (analyzeDependencies files))).
Proof.
  intros Hempty.
  destruct (empty_contents_nodes files Hempty) as (Hnodes & Hbare).
  split; [|split].
  - change (circularDependencies (analyzeDependencies files))
      with (detectCircularDependencies (nodes (analyzeDependencies files))).
    rewrite Hnodes. apply no_edges_no_cycles.
    intros k v Hin. now rewrite (Hbare k v Hin).
  - apply missingDependencies_always_empty.
  - change (unusedFiles (analyzeDependencies files))
      with (detectUnused (nodes (analyzeDependencies files))).
    rewrite Hnodes. now apply detectUnused_bare.
Qed.

(** The keys of the graph are the paths of the files. *)
Lemma nodes_keys (files : list File.SourceFile) (p : string) :
  In p (map_keys (nodes (analyzeDependencies files))) <->
  In p (map File.path files).
Proof. simpl. rewrite map_keys_secondPass. apply firstPass_spec. Qed.

Lemma unusedFiles_empty_contents (files : list File.SourceFile) (p : string) :
  (forall f, In f files -> File.content f = EmptyString) ->
  In p (unusedFiles (analyzeDependencies files)) <->
  In p (map File.path files) /\ isEntryPoint p = false.
Proof.
  intros H.
  destruct (analyzeDependencies_empty_contents files H) as (_ & _ & ->).
  rewrite filter_In, nodes_keys, negb_true_iff. reflexivity.
Qed.

(** ** The depth of the traversal *)

Lemma forDeps_mono (r1 r2 : string -> dfs_state -> option dfs_state)
    (cp deps : list string) (st st' : dfs_state) :
  (forall dep s s', r1 dep s = Some s' -> r2 dep s = Some s') ->
  forDeps r1 cp deps st = Some st' -> forDeps r2 cp deps st = Some st'.
Proof.
  intros Hr. revert st. induction deps as [|dep deps IH]; intros st;
    cbn [forDeps]; [auto|].
  destruct (negb (mem dep (visited st))).
  - destruct (r1 dep st) as [s1|] eqn:E; [|discriminate].
    rewrite (Hr _ _ _ E). apply IH.
  - destruct (mem dep (recursionStack st)); apply IH.
Qed.

(** A traversal that completes within some depth completes within any
    greater depth, with the same outcome. *)
Lemma dfs_depth_mono (nodes : NodeMap) (n m : nat) :
  n <= m ->
  forall p cp st st',
    dfs nodes n p cp st = Some st' -> dfs nodes m p cp st = Some st'.
Proof.
  revert m. induction n as [|n IH]; intros m Hle p cp st st';
    [discriminate|].
  destruct m as [|m]; [lia|]. cbn [dfs].
  destruct (map_get nodes p) as [node|]; [|auto].
  destruct (forDeps (fun dep s => dfs nodes n dep (cp ++ [p]) s) _ _ _)
    as [s1|] eqn:E; [|discriminate].
  erewrite forDeps_mono; [| |exact E]; [auto|].
  intros dep s s'. apply IH. lia.
Qed.

Lemma dfsRoots_depth_mono (nodes : NodeMap) (n m : nat) (keys : list string) :
  n <= m ->
  forall st st',
    dfsRoots nodes n keys st = Some st' -> dfsRoots nodes m keys st = Some st'.
Proof.
  intros Hle. induction keys as [|k keys IH]; intros st st'; cbn [dfsRoots];
    [auto|].
  destruct (negb (mem k (visited st))); [|apply IH].
  destruct (dfs nodes n k [] st) as [s1|] eqn:E; [|discriminate].
  rewrite (dfs_depth_mono nodes Hle _ _ _ E). apply IH.
Qed.

(** What the traversal finds within one call deep is what [runDfs] finds. *)
Lemma runDfsWithin_one (nodes : NodeMap) (st : dfs_state) :
  runDfsWithin 1 nodes = Some st -> runDfs nodes = Some st.
Proof.
  unfold runDfsWithin, runDfs. apply dfsRoots_depth_mono.
  unfold dfsFuel. lia.
Qed.

(** Dependencies that are all visited are stepped over without a call. *)
Lemma forDeps_visited (r : string -> dfs_state -> option dfs_state)
    (cp deps : list string) (st : dfs_state) :
  (forall d, In d deps -> mem d (visited st) = true) ->
  exists st', forDeps r cp deps st = Some st'.
Proof.
  revert st. induction deps as [|dep deps IH]; intros st H; cbn [forDeps].
  - now exists st.
  - rewrite (H dep (or_introl eq_refl)). cbn [negb].
    destruct (mem dep (recursionStack st)); apply IH;
      intros d Hd; apply H; now right.
Qed.

(** Without edges no call of [dfs] makes another one. *)
Lemma dfsRoots_no_edges_depth (m : NodeMap) (keys : list string)
    (st : dfs_state) :
  (forall k v, In (k, v) m -> dependencies v = []) ->
  exists st', dfsRoots m 1 keys st = Some st'.
Proof.
  intros H. revert st. induction keys as [|k keys IH]; intros st;
    cbn [dfsRoots]; [now exists st|].
  destruct (negb (mem k (visited st))); [|apply IH].
  cbn [dfs]. destruct (map_get m k) as [node|] eqn:E.
  - rewrite (H k node (map_get_In _ _ E)). cbn [forDeps]. apply IH.
  - apply IH.
Qed.

Lemma mem_set_add_same (x : string) (l : list string) :
  mem x (set_add x l) = true.
Proof.
  unfold set_add. destruct (mem x l) eqn:E; [exact E|].
  apply mem_In, in_app_iff. right. now left.
Qed.

(** The graph of a single file has one node, and its only possible edge
    goes from the file to itself. *)
Lemma single_file_nodes (f : File.SourceFile) :
  exists v, nodes (analyzeDependencies [f]) = [(File.path f, v)] /\
            forall d, In d (dependencies v) -> d = File.path f.
Proof.
  assert (Hk : map_keys (nodes (analyzeDependencies [f])) = [File.path f]).
  { simpl. rewrite map_keys_secondPass. reflexivity. }
  destruct (nodes (analyzeDependencies [f])) as [|[k v] [|kv rest]] eqn:E;
    try discriminate.
  injection Hk as ->. exists v. split; [reflexivity|].
  intros d Hd.
  assert (Hin : In (File.path f, v) (nodes (analyzeDependencies [f]))).
  { rewrite E. now left. }
  pose proof (@dependencies_are_nodes [f] (File.path f) v Hin d Hd) as Hhas.
  apply map_has_In in Hhas. rewrite E in Hhas.
  destruct Hhas as [<-|[]]. reflexivity.
Qed.

Lemma single_file_depth (f : File.SourceFile) :
  exists st, runDfsWithin 1 (nodes (analyzeDependencies [f])) = Some st.
Proof.
  destruct (single_file_nodes f) as (v & -> & Hdeps).
  unfold runDfsWithin. cbn [map_keys map fst dfsRoots mem existsb negb dfs].
  cbn [map_get]. rewrite String.eqb_refl.
  match goal with
  | |- context [forDeps ?r ?cp ?deps ?s] =>
      destruct (@forDeps_visited r cp deps s) as (st' & ->)
  end.
  - intros d Hd. rewrite (Hdeps d Hd). cbn [visited]. apply mem_set_add_same.
  - eexists. reflexivity.
Qed.

(** The depth grows with the import chain: three files that import one
    another in a row need three nested calls. *)
Example import_chain_nests :
  runDfsWithin 2 (nodes (analyzeDependencies threeChain)) = None /\
  exists st, runDfsWithin 3 (nodes (analyzeDependencies threeChain)) = Some st.
Proof. split; [vm_compute; reflexivity | eexists; vm_compute; reflexivity]. Qed.

(** ** The examples of the specification *)

(** C1: for the single file [c.ts] with content [import "./missing"] the
    specifier is extracted and no candidate path is a file, yet the list of
    missing dependencies is empty. *)
Theorem missing_example_not_reported :
  extractImports (File.content c_ts) = ["./missing"] /\
  resolveImportPaths ["./missing"] "c.ts" [c_ts] = [] /\
  missingDependencies (analyzeDependencies [c_ts]) = [].
Proof. repeat split; vm_compute; reflexivity. Qed.

(** C2: for [a.ts] importing [./b] and [b.ts] importing [./a], both at the
    top level, neither import is resolved: no cycle is found and both files
    are reported unused. *)
Theorem top_level_cycle_not_found :
  circularDependencies (analyzeDependencies [a_ts; b_ts]) = [] /\
  missingDependencies (analyzeDependencies [a_ts; b_ts]) = [] /\
  unusedFiles (analyzeDependencies [a_ts; b_ts]) = ["a.ts"; "b.ts"].
Proof. repeat split; vm_compute; reflexivity. Qed.

(** The directory of a top-level file is the empty string, so [./b] is
    resolved to [/b], and no candidate built on [/b] is the path [b.ts]. *)
Example top_level_candidates :
  join "/" (removelast (split "/" "a.ts")) = EmptyString /\
  join "/" (normalizeParts (split "/" "/b")) = "/b" /\
  firstPresent [a_ts; b_ts] (possiblePaths "/b") = None /\
  resolveImport "a.ts" [a_ts; b_ts] "./b" = [].
Proof. repeat split; vm_compute; reflexivity. Qed.

(** The same two files inside a directory give the cycle. *)
Example nested_cycle_found :
  let files := [File.mkFile "src/a.ts" (importOf "./b") "ts";
                File.mkFile "src/b.ts" (importOf "./a") "ts"] in
  circularDependencies (analyzeDependencies files)
    = [["src/a.ts"; "src/b.ts"; "src/a.ts"]] /\
  missingDependencies (analyzeDependencies files) = [] /\
  unusedFiles (analyzeDependencies files) = [].
Proof. repeat split; vm_compute; reflexivity. Qed.

(** The three patterns written with [$$] never match, whatever the
    content: they ask for a quote after the end of the input. *)
Lemma dollar_patterns_never_match (content : string) :
  match_all false dynamicImportRegex content = [] /\
  match_all false requireRegex content = [] /\
  match_all false phpRequireRegex content = [].
Proof.
  repeat split; apply RegexProofs.never_match_all.
  - apply RegexProofs.never_seq, RegexProofs.never_seq.
    intros st k.
    apply (RegexProofs.after_end_fail [CChar "'"; CChar (chr 34)]
             (rseq [RGroup 1 (RPlus notQuote); quote; RStar s_; REol; REol])).
  - apply RegexProofs.never_seq, RegexProofs.never_seq.
    intros st k.
    apply (RegexProofs.after_end_fail [CChar "'"; CChar (chr 34)]
             (rseq [RGroup 1 (RPlus notQuote); quote; RStar s_; REol; REol])).
  - apply RegexProofs.never_seq, RegexProofs.never_seq, RegexProofs.never_seq.
    intros st k.
    apply (RegexProofs.after_end_fail [CChar "'"; CChar (chr 34)]
             (rseq [RGroup 1 (RPlus notQuote); quote; RStar s_; REol; REol])).
Qed.

(** C4: neither [require("X")] nor [import("X")] yields the specifier [X]:
    both patterns ask for the end of the input before the quote. *)
Theorem require_and_dynamic_import_not_extracted :
  extractImports ("require(" ++ dq ++ "X" ++ dq ++ ")") = [] /\
  extractImports ("import(" ++ dq ++ "X" ++ dq ++ ")") = [].
Proof. split; vm_compute; reflexivity. Qed.

(** The static form is extracted. *)
Example static_import_extracted :
  extractImports ("import x from " ++ dq ++ "X" ++ dq) = ["X"].
Proof. vm_compute. reflexivity. Qed.

Lemma dependents_sound_complete_witness :
  map_get (nodes (analyzeDependencies twoFiles)) "src/b.ts"
    = Some (mkNode "src/b.ts" [] [] [] ["src/a.ts"]) /\
  forall m : string,
    In m ["src/a.ts"] <->
    exists mnode,
      map_get (nodes (analyzeDependencies twoFiles)) m = Some mnode /\
      In "src/b.ts" (dependencies mnode).
Proof.
  split.
  - vm_compute. reflexivity.
  - apply (@dependents_sound_complete twoFiles "src/b.ts"
             (mkNode "src/b.ts" [] [] [] ["src/a.ts"])).
    vm_compute. reflexivity.
Defined.

(** An instance: [util.ts] alone is unused, [index.ts] alone is not. *)
Lemma unused_files_spec_witness :
  map_get (nodes (analyzeDependencies [File.mkFile "util.ts" EmptyString "ts"])) "util.ts"
    = Some (mkNode "util.ts" [] [] [] []) /\
  isEntryPoint "util.ts" = false /\
  In "util.ts" (unusedFiles (analyzeDependencies [File.mkFile "util.ts" EmptyString "ts"])) /\
  ~ In "index.ts" (unusedFiles (analyzeDependencies [File.mkFile "index.ts" EmptyString "ts"])).
Proof.
  split; [vm_compute; reflexivity|].
  split; [vm_compute; reflexivity|].
  split.
  - apply (proj1 (unused_files_spec [File.mkFile "util.ts" EmptyString "ts"])
             "util.ts" (mkNode "util.ts" [] [] [] [])).
    + vm_compute. reflexivity.
    + reflexivity.
    + vm_compute. reflexivity.
  - apply (proj2 (unused_files_spec [File.mkFile "index.ts" EmptyString "ts"])).
Defined.

End DependencyProofs.

(** * Properties of the code-quality analyzer *)

Module QualityProofs.
Import Js Regex CodeQualityAnalyzer QualityNotions.

(** ** Similarity *)

Lemma countMatches_sym (a b : string) : countMatches a b = countMatches b a.
Proof.
  revert b. induction a as [|c a IH]; intros [|d b]; simpl; try reflexivity.
  now rewrite IH, Ascii.eqb_sym.
Qed.

Lemma calculateSimilarity_sym (a b : string) :
  calculateSimilarity a b = calculateSimilarity b a.
Proof.
  unfold calculateSimilarity.
  now rewrite countMatches_sym, Nat.max_comm.
Qed.

(** ** Windows and pairs of windows *)

Lemma blocksOfFile_file (f : File.SourceFile) (b : CodeBlock.t) :
  In b (blocksOfFile f) -> CodeBlock.file b = File.path f.
Proof.
  unfold blocksOfFile. rewrite in_flat_map. intros (i & _ & H).
  destruct (50 <? _); [|contradiction]. destruct H as [<-|[]]. reflexivity.
Qed.

Lemma In_compareWith (b : CodeBlock.t) (Y : list CodeBlock.t) (d : DuplicateCode.t) :
  In d (compareWith b Y) <->
  exists b', In b' Y /\
    aboveThreshold (calculateSimilarity (CodeBlock.content b) (CodeBlock.content b')) = true /\
    String.eqb (CodeBlock.file b) (CodeBlock.file b') = false /\
    d = DuplicateCode.mk [b; b']
          (calculateSimilarity (CodeBlock.content b) (CodeBlock.content b')) minLines.
Proof.
  unfold compareWith. rewrite in_flat_map. split.
  - intros (b' & Hin & H). exists b'. split; [assumption|].
    destruct (aboveThreshold _) eqn:Ea; simpl in H; [|contradiction].
    destruct (String.eqb _ _) eqn:Ef; simpl in H; [contradiction|].
    destruct H as [<-|[]]. now repeat split.
  - intros (b' & Hin & Ha & Hf & ->). exists b'. split; [assumption|].
    rewrite Ha, Hf. now left.
Qed.

Lemma compareBlocks_app (X Y : list CodeBlock.t) (d : DuplicateCode.t) :
  In d (compareBlocks (X ++ Y)) <->
  In d (compareBlocks X) \/ In d (crossPairs X Y) \/ In d (compareBlocks Y).
Proof.
  induction X as [|b X IH]; simpl.
  - tauto.
  - rewrite !in_app_iff, IH.
    unfold compareWith at 1. rewrite flat_map_app, in_app_iff.
    fold (compareWith b X). fold (compareWith b Y). tauto.
Qed.

(** Blocks of one file are never paired with each other. *)
Lemma compareBlocks_same_file (p : string) (X : list CodeBlock.t) :
  (forall b, In b X -> CodeBlock.file b = p) -> compareBlocks X = [].
Proof.
  induction X as [|b X IH]; intros H; simpl; [reflexivity|].
  rewrite IH by (intros; apply H; now right). rewrite app_nil_r.
  unfold compareWith.
  apply DependencyProofs.flat_map_nil. intros b' Hb'.
  rewrite (H b (or_introl eq_refl)), (H b' (or_intror Hb')), String.eqb_refl.
  now rewrite andb_false_r.
Qed.

Lemma findDuplicateCode_two (f1 f2 : File.SourceFile) (d : DuplicateCode.t) :
  In d (findDuplicateCode [f1; f2]) <->
  In d (crossPairs (blocksOfFile f1) (blocksOfFile f2)).
Proof.
  unfold findDuplicateCode. simpl. rewrite app_nil_r, compareBlocks_app.
  rewrite (@compareBlocks_same_file (File.path f1) (blocksOfFile f1))
    by apply blocksOfFile_file.
  rewrite (@compareBlocks_same_file (File.path f2) (blocksOfFile f2))
    by apply blocksOfFile_file.
  simpl. tauto.
Qed.

(** C8: the similarity of two blocks does not depend on their order, so a
    pair of blocks reported for the files [f1; f2] is reported, swapped and
    with the same score, for the files [f2; f1]. *)
Theorem similarity_symmetric :
  (forall a b : string, calculateSimilarity a b = calculateSimilarity b a) /\
  (forall (f1 f2 : File.SourceFile) (d : DuplicateCode.t),
      In d (findDuplicateCode [f1; f2]) ->
      exists b1 b2,
        DuplicateCode.blocks d = [b1; b2] /\
        In (DuplicateCode.mk [b2; b1] (DuplicateCode.similarity d)
                             (DuplicateCode.lines d))
           (findDuplicateCode [f2; f1])).
Proof.
  split; [exact calculateSimilarity_sym|].
  intros f1 f2 d Hd.
  apply findDuplicateCode_two in Hd. unfold crossPairs in Hd.
  apply in_flat_map in Hd as (b1 & Hb1 & Hd).
  apply In_compareWith in Hd as (b2 & Hb2 & Ha & Hf & ->).
  exists b1, b2. split; [reflexivity|]. simpl.
  apply findDuplicateCode_two. unfold crossPairs.
  apply in_flat_map. exists b2. split; [assumption|].
  apply In_compareWith. exists b1. split; [assumption|].
  rewrite calculateSimilarity_sym, String.eqb_sym. now repeat split.
Qed.

(** ** Files of at most five lines *)

Lemma blocksOfFile_short (f : File.SourceFile) :
  List.length (split nl (File.content f)) <= 5 -> blocksOfFile f = [].
Proof.
  intros H. unfold blocksOfFile, minLines.
  replace (List.length (split nl (File.content f)) - 5) with 0 by lia.
  reflexivity.
Qed.

Lemma findDuplicateCode_short (files : list File.SourceFile) :
  (forall f, In f files -> List.length (split nl (File.content f)) <= 5) ->
  findDuplicateCode files = [].
Proof.
  intros H. unfold findDuplicateCode.
  rewrite DependencyProofs.flat_map_nil; [reflexivity|].
  intros f Hf. apply blocksOfFile_short, H, Hf.
Qed.

(** C10: a file of five lines or fewer yields no window, so a set of such
    files, in particular two files with the same five lines, has no
    duplicate finding. *)
Theorem short_files_have_no_windows :
  (forall f : File.SourceFile,
      List.length (split nl (File.content f)) <= 5 -> blocksOfFile f = []) /\
  (forall files : list File.SourceFile,
      (forall f, In f files -> List.length (split nl (File.content f)) <= 5) ->
      findDuplicateCode files = []).
Proof.
  split; [exact blocksOfFile_short | exact findDuplicateCode_short].
Qed.

Lemma short_files_have_no_windows_witness :
  List.length (split nl fiveLines) = 5 /\
  blocksOfFile (File.mkFile "a.ts" fiveLines "ts") = [] /\
  findDuplicateCode [File.mkFile "a.ts" fiveLines "ts";
                     File.mkFile "b.ts" fiveLines "ts"] = [].
Proof.
  split; [vm_compute; reflexivity|]. split.
  - apply (proj1 short_files_have_no_windows (File.mkFile "a.ts" fiveLines "ts")).
    vm_compute. lia.
  - apply (proj2 short_files_have_no_windows).
    intros f [<-|[<-|[]]]; vm_compute; lia.
Defined.

(** With a sixth line the same two files are reported. *)
Example six_lines_are_reported :
  List.length
    (findDuplicateCode [File.mkFile "a.ts" (fiveLines ++ nl ++ "}") "ts";
                        File.mkFile "b.ts" (fiveLines ++ nl ++ "}") "ts"]) = 1.
Proof. vm_compute. reflexivity. Qed.

Lemma similarity_symmetric_witness :
  exists d b1 b2,
    In d (findDuplicateCode [sixLinesA; sixLinesB]) /\
    DuplicateCode.blocks d = [b1; b2] /\
    In (DuplicateCode.mk [b2; b1] (DuplicateCode.similarity d)
                         (DuplicateCode.lines d))
       (findDuplicateCode [sixLinesB; sixLinesA]).
Proof.
  pose (d := nth 0 (findDuplicateCode [sixLinesA; sixLinesB])
                 (DuplicateCode.mk [] 0%Q 0)).
  assert (Hd : In d (findDuplicateCode [sixLinesA; sixLinesB])).
  { vm_compute. left. reflexivity. }
  destruct (proj2 similarity_symmetric sixLinesA sixLinesB d Hd)
    as (b1 & b2 & H1 & H2).
  exists d, b1, b2. split; [exact Hd | split; [exact H1 | exact H2]].
Defined.

(** ** Dead functions *)

(** A function is reported exactly when its name is neither exported nor an
    element of the identifier set of the whole file, declaration included. *)
Lemma In_unusedFunctions (f : File.SourceFile) (ids : list string)
    (g : DependencyAnalyzer.DependencyGraph) (d : DeadCode.t) :
  In d (unusedFunctions f ids g) <->
  exists func,
    In func (extractFunctions (File.content f)) /\
    match DependencyAnalyzer.map_get (DependencyAnalyzer.nodes g) (File.path f) with
    | Some n => mem (fn_name func) (DependencyAnalyzer.exports n)
    | None => false
    end = false /\
    mem (fn_name func) ids = false /\
    d = DeadCode.mk DeadCode.function (fn_name func) (File.path f) (fn_line func)
          "Function is never called or exported".
Proof.
  unfold unusedFunctions. rewrite in_flat_map. split.
  - intros (func & Hin & H). exists func. split; [assumption|].
    destruct (match DependencyAnalyzer.map_get _ _ with Some _ => _ | None => _ end);
      simpl in H; [contradiction|].
    destruct (mem (fn_name func) ids); simpl in H; [contradiction|].
    destruct H as [<-|[]]. now repeat split.
  - intros (func & Hin & He & Hu & ->). exists func. split; [assumption|].
    rewrite He, Hu. now left.
Qed.

(** C5: in the file [a.ts] with content [function foo() {}] the function
    [foo] is detected, it is not exported and its name occurs in the
    declaration only, yet it is not reported: the identifier set that is
    consulted contains the declaration. *)
Theorem unused_function_not_reported :
  map fn_name (extractFunctions (File.content foo_ts)) = ["foo"; "foo"; "foo"] /\
  option_map DependencyAnalyzer.exports
    (DependencyAnalyzer.map_get
       (DependencyAnalyzer.nodes (DependencyAnalyzer.analyzeDependencies [foo_ts]))
       "a.ts") = Some [] /\
  countUsages (File.content foo_ts) "foo" = 1 /\
  extractUsedIdentifiers (File.content foo_ts) = ["function"; "foo"] /\
  findDeadCode [foo_ts] (DependencyAnalyzer.analyzeDependencies [foo_ts]) = [].
Proof. repeat split; vm_compute; reflexivity. Qed.

(** A name that is reported has to be missing from the identifier set; here
    it is the run [2], which the method pattern takes for a name and which is
    no identifier. *)
Example only_non_identifiers_are_reported :
  let f := File.mkFile "a.ts" "1 2(3)" "ts" in
  findDeadCode [f] (DependencyAnalyzer.analyzeDependencies [f]) =
    [DeadCode.mk DeadCode.function "2" "a.ts" 1
       "Function is never called or exported"].
Proof. vm_compute. reflexivity. Qed.

(** The sibling check on variables counts the declaration: a variable that
    occurs once is reported. *)
Example unused_variable_reported :
  let f := File.mkFile "a.ts" "const total = 1" "ts" in
  findDeadCode [f] (DependencyAnalyzer.analyzeDependencies [f]) =
    [DeadCode.mk DeadCode.variable "total" "a.ts" 1
       "Variable is declared but never used"].
Proof. vm_compute. reflexivity. Qed.

(** ** Cyclomatic complexity *)

(** C6: a body with two [if] and one [&&] written between spaces scores 3:
    the pattern for [&&] needs a word character on both sides. *)
Theorem complexity_two_ifs_one_and :
  calculateCyclomaticComplexity "if (a && b) { if (c) {} }" = 3.
Proof. vm_compute. reflexivity. Qed.

(** Without the spaces the score is 4. *)
Example tight_operands_score_four :
  calculateCyclomaticComplexity "if(a&&b){if(c){}}" = 4.
Proof. vm_compute. reflexivity. Qed.

(** ** Empty inputs *)

Lemma redundantOfLine_empty (f : File.SourceFile) (index : nat) :
  redundantOfLine f index EmptyString = [].
Proof.
  unfold redundantOfLine.
  destruct (String.eqb (File.language f) "py"),
           (String.eqb (File.language f) "java"),
           (String.eqb (File.language f) "php"); reflexivity.
Qed.

Lemma deadCodeOfFile_empty (g : DependencyAnalyzer.DependencyGraph)
    (f : File.SourceFile) :
  File.content f = EmptyString -> deadCodeOfFile g f = [].
Proof.
  intros H. unfold deadCodeOfFile, unusedImports, unusedFunctions, unusedVariables.
  rewrite H. reflexivity.
Qed.

Lemma analyzeCodeQuality_empty_contents (files : list File.SourceFile)
    (g : DependencyAnalyzer.DependencyGraph) :
  (forall f, In f files -> File.content f = EmptyString) ->
  analyzeCodeQuality files g = mkReport [] [] [] [].
Proof.
  intros H. unfold analyzeCodeQuality. f_equal.
  - apply findDuplicateCode_short. intros f Hf. rewrite (H f Hf).
    vm_compute. lia.
  - unfold findDeadCode. apply DependencyProofs.flat_map_nil.
    intros f Hf. now apply deadCodeOfFile_empty, H.
  - unfold findRedundantCode. apply DependencyProofs.flat_map_nil.
    intros f Hf. rewrite (H f Hf). simpl. rewrite redundantOfLine_empty. reflexivity.
  - unfold analyzeComplexity. apply DependencyProofs.flat_map_nil.
    intros f Hf. rewrite (H f Hf). reflexivity.
Qed.

(** C9 as stated fails: a single empty file that is not an entry point is
    reported as unused; a single file with a [console.log] has a quality
    finding; a single file that imports itself is a cycle. *)
Lemma single_file_sets_are_reported :
  File.content (File.mkFile "a.ts" EmptyString "ts") = EmptyString /\
  DependencyAnalyzer.unusedFiles
    (DependencyAnalyzer.analyzeDependencies [File.mkFile "a.ts" EmptyString "ts"])
    = ["a.ts"] /\
  List.length
    (redundantCode
       (analyzeCodeQuality [File.mkFile "a.ts" "console.log(1)" "ts"]
          (DependencyAnalyzer.analyzeDependencies
             [File.mkFile "a.ts" "console.log(1)" "ts"]))) = 1 /\
  DependencyAnalyzer.circularDependencies
    (DependencyAnalyzer.analyzeDependencies
       [File.mkFile "src/a.ts" (DependencyNotions.importOf "./a") "ts"])
    = [["src/a.ts"; "src/a.ts"]].
Proof. repeat split; vm_compute; reflexivity. Qed.

Lemma findDuplicateCode_single (f : File.SourceFile) :
  findDuplicateCode [f] = [].
Proof.
  unfold findDuplicateCode. apply compareBlocks_same_file with (File.path f).
  intros b Hb. apply in_flat_map in Hb as (f' & [<-|[]] & Hb).
  now apply blocksOfFile_file.
Qed.

(** C9, amended: the traversal of the graph returns on every file set,
    within its bound.  The empty file set gives the empty graph and the
    empty report, with no call of [dfs] at all.  Files that are all empty
    give no cycle, no missing dependency and no quality finding, the unused
    files are then the paths of the set that match no entry-point pattern,
    and no call of [dfs] makes another one.  A single file, whatever it
    contains, gives no duplicate finding, and again no call of [dfs] makes
    another one. *)
Theorem empty_inputs_are_valid :
  (forall files : list File.SourceFile,
      exists st,
        DependencyAnalyzer.runDfs
          (DependencyAnalyzer.nodes (DependencyAnalyzer.analyzeDependencies files))
        = Some st) /\
  DependencyAnalyzer.analyzeDependencies [] = emptyGraph /\
  (forall g, analyzeCodeQuality [] g = emptyReport) /\
  (forall files : list File.SourceFile,
      (forall f, In f files -> File.content f = EmptyString) ->
      let g := DependencyAnalyzer.analyzeDependencies files in
      DependencyAnalyzer.circularDependencies g = [] /\
      DependencyAnalyzer.missingDependencies g = [] /\
      (forall p, In p (DependencyAnalyzer.unusedFiles g) <->
                 In p (map File.path files) /\
                 DependencyAnalyzer.isEntryPoint p = false) /\
      analyzeCodeQuality files g = emptyReport) /\
  DependencyNotions.runDfsWithin 0
    (DependencyAnalyzer.nodes (DependencyAnalyzer.analyzeDependencies []))
  = Some (DependencyAnalyzer.mkDfs [] [] []) /\
  (forall files : list File.SourceFile,
      (forall f, In f files -> File.content f = EmptyString) ->
      exists st,
        DependencyNotions.runDfsWithin 1
          (DependencyAnalyzer.nodes (DependencyAnalyzer.analyzeDependencies files))
        = Some st /\
        DependencyAnalyzer.runDfs
          (DependencyAnalyzer.nodes (DependencyAnalyzer.analyzeDependencies files))
        = Some st) /\
  (forall f : File.SourceFile,
      (exists st,
         DependencyNotions.runDfsWithin 1
           (DependencyAnalyzer.nodes (DependencyAnalyzer.analyzeDependencies [f]))
         = Some st /\
         DependencyAnalyzer.runDfs
           (DependencyAnalyzer.nodes (DependencyAnalyzer.analyzeDependencies [f]))
         = Some st) /\
      forall g, duplicates (analyzeCodeQuality [f] g) = []).
Proof.
  split; [intros files; apply DependencyProofs.runDfs_total|].
  split; [reflexivity|].
  split; [reflexivity|].
  split.
  { intros files H g.
    destruct (DependencyProofs.analyzeDependencies_empty_contents files H)
      as (H1 & H2 & _).
    split; [exact H1|]. split; [exact H2|]. split.
    - intros p. now apply DependencyProofs.unusedFiles_empty_contents.
    - now apply analyzeCodeQuality_empty_contents. }
  split; [reflexivity|].
  split.
  { intros files H.
    destruct (DependencyProofs.empty_contents_nodes files H) as (Hnodes & Hbare).
    destruct (@DependencyProofs.dfsRoots_no_edges_depth
                (DependencyAnalyzer.nodes
                   (DependencyAnalyzer.analyzeDependencies files))
                (DependencyAnalyzer.map_keys
                   (DependencyAnalyzer.nodes
                      (DependencyAnalyzer.analyzeDependencies files)))
                (DependencyAnalyzer.mkDfs [] [] [])) as (st & Hst).
    - rewrite Hnodes. intros k v Hin. now rewrite (Hbare k v Hin).
    - exists st. split; [exact Hst|].
      now apply DependencyProofs.runDfsWithin_one. }
  intros f. split.
  - destruct (DependencyProofs.single_file_depth f) as (st & Hst).
    exists st. split; [exact Hst|].
    now apply DependencyProofs.runDfsWithin_one.
  - intros g. apply findDuplicateCode_single.
Qed.

Lemma empty_inputs_are_valid_witness :
  let files := [File.mkFile "a.ts" EmptyString "ts"; File.mkFile "index.ts" EmptyString "ts"] in
  let g := DependencyAnalyzer.analyzeDependencies files in
  (forall f, In f files -> File.content f = EmptyString) /\
  DependencyAnalyzer.circularDependencies g = [] /\
  DependencyAnalyzer.missingDependencies g = [] /\
  (forall p, In p (DependencyAnalyzer.unusedFiles g) <->
             In p (map File.path files) /\
             DependencyAnalyzer.isEntryPoint p = false) /\
  analyzeCodeQuality files g = emptyReport /\
  exists st,
    DependencyNotions.runDfsWithin 1 (DependencyAnalyzer.nodes g) = Some st /\
    DependencyAnalyzer.runDfs (DependencyAnalyzer.nodes g) = Some st.
Proof.
  intros files g.
  assert (H : forall f, In f files -> File.content f = EmptyString).
  { intros f [<-|[<-|[]]]; reflexivity. }
  split; [exact H|].
  destruct (proj1 (proj2 (proj2 (proj2 empty_inputs_are_valid))) files H)
    as (H1 & H2 & H3 & H4).
  repeat (split; [assumption|]).
  exact (proj1 (proj2 (proj2 (proj2 (proj2 (proj2 empty_inputs_are_valid)))))
           files H).
Defined.

End QualityProofs.

(** * Further properties of the dependency analyzer *)

Module DependencyExtras.
Import Js Regex DependencyAnalyzer DependencyNotions DependencyProofs ExtraNotions.

(** ** Extraction *)

Lemma dedupe_go_spec (l seen : list string) :
  NoDup (dedupe_go seen l) /\
  forall x, In x (dedupe_go seen l) <-> In x l /\ ~ In x seen.
Proof.
  revert seen. induction l as [|a l IH]; intros seen; simpl.
  - split; [constructor | intros x; tauto].
  - destruct (mem a seen) eqn:E.
    + apply mem_In in E. destruct (IH seen) as (Hnd & Hin).
      split; [exact Hnd|]. intros x. rewrite Hin. split.
      * intros [H1 H2]. auto.
      * intros [[<-|H1] H2]; [contradiction | auto].
    + assert (Ha : ~ In a seen).
      { intros H. apply mem_In in H. congruence. }
      destruct (IH (a :: seen)) as (Hnd & Hin). split.
      * constructor; [|exact Hnd]. rewrite Hin. simpl. tauto.
      * intros x. simpl. rewrite Hin. simpl. split.
        -- intros [<-|[H1 H2]]; [auto | tauto].
        -- intros [[<-|H1] H2]; [now left|].
           destruct (string_dec a x) as [<-|Hne]; [now left|]. right. tauto.
Qed.

Lemma dedupe_spec (l : list string) :
  NoDup (dedupe l) /\ forall x, In x (dedupe l) <-> In x l.
Proof.
  destruct (dedupe_go_spec l []) as (H1 & H2). split; [exact H1|].
  intros x. unfold dedupe. rewrite H2. simpl. tauto.
Qed.

(** X1: the specifiers extracted from a content are pairwise different. *)
Theorem extractImports_distinct (content : string) :
  NoDup (extractImports content).
Proof. unfold extractImports. apply dedupe_spec. Qed.

(** ** Resolution *)

Lemma resolveImport_length (currentFile : string)
    (allFiles : list File.SourceFile) (imp : string) :
  List.length (resolveImport currentFile allFiles imp) <=
  (if startsWith imp "." then 1 else 0).
Proof.
  unfold resolveImport.
  destruct (isExternalDependency imp); [simpl; lia|].
  destruct (startsWith imp "."); [|simpl; lia].
  destruct (firstPresent _ _); simpl; lia.
Qed.

(** X2: every path that [resolveImportPaths] returns is the path of a file
    of the set, and there is at most one per specifier that starts with a
    dot: external specifiers and specifiers that start with a slash give
    nothing. *)
Theorem resolveImportPaths_bounds (imports : list string)
    (currentFile : string) (allFiles : list File.SourceFile) :
  (forall p, In p (resolveImportPaths imports currentFile allFiles) ->
             In p (map File.path allFiles)) /\
  List.length (resolveImportPaths imports currentFile allFiles) <=
  List.length (filter (fun imp => startsWith imp ".") imports).
Proof.
  split.
  - intros p. apply resolveImportPaths_in_files.
  - unfold resolveImportPaths.
    induction imports as [|imp imports IH]; simpl; [lia|].
    rewrite length_app.
    pose proof (resolveImport_length currentFile allFiles imp) as H.
    destruct (startsWith imp "."); simpl; lia.
Qed.

Lemma resolveImportPaths_bounds_witness :
  In "src/b.ts" (map File.path [File.mkFile "src/b.ts" EmptyString "ts"]).
Proof.
  apply (proj1 (resolveImportPaths_bounds ["react"; "./b"; "/c"] "src/a.ts"
                  [File.mkFile "src/b.ts" EmptyString "ts"])).
  vm_compute. left. reflexivity.
Defined.

(** ** The nodes of the graph *)

Lemma find_app {A : Type} (p : A -> bool) (l1 l2 : list A) :
  find p (l1 ++ l2) =
  match find p l1 with Some x => Some x | None => find p l2 end.
Proof.
  induction l1 as [|a l1 IH]; simpl; [reflexivity|].
  destruct (p a); [reflexivity | exact IH].
Qed.

Lemma firstPass_fold_get allFiles (fs : list File.SourceFile)
    (acc : NodeMap) (k : string) :
  map_get (fold_left (firstPassStep allFiles) fs acc) k =
  match lastFileOf fs k with
  | Some f => Some (nodeOfFile allFiles f)
  | None => map_get acc k
  end.
Proof.
  revert acc. induction fs as [|f fs IH]; intros acc; simpl; [reflexivity|].
  rewrite IH. unfold lastFileOf. simpl. rewrite find_app. simpl.
  destruct (find _ (rev fs)); [reflexivity|].
  unfold firstPassStep at 1. rewrite map_get_set.
  destruct (String.eqb (File.path f) k); reflexivity.
Qed.

Lemma firstPass_get (files : list File.SourceFile) (k : string) :
  map_get (firstPass files) k =
  option_map (nodeOfFile files) (lastFileOf files k).
Proof.
  change (firstPass files) with (fold_left (firstPassStep files) files []).
  rewrite firstPass_fold_get. now destruct (lastFileOf files k).
Qed.

(** X3: the node of a key is built from the last file of that path: it has
    the key as its path and the imports, exports and resolved dependencies of
    that file; a key that is the path of no file has no node. *)
Theorem node_of_last_file (files : list File.SourceFile) (k : string) :
  match lastFileOf files k with
  | Some f =>
      exists n,
        map_get (nodes (analyzeDependencies files)) k = Some n /\
        path n = k /\
        imports n = extractImports (File.content f) /\
        exports n = extractExports (File.content f) /\
        dependencies n =
          resolveImportPaths (extractImports (File.content f)) k files
  | None => map_get (nodes (analyzeDependencies files)) k = None
  end.
Proof.
  simpl. rewrite map_get_secondPass, firstPass_get.
  destruct (lastFileOf files k) as [f|] eqn:E; simpl; [|reflexivity].
  unfold lastFileOf in E. apply find_some in E as [_ E].
  apply String.eqb_eq in E. subst k.
  eexists. split; [reflexivity|]. simpl. repeat split.
Qed.

(** X4: the edges stay inside the graph: every dependency and every
    dependent of a node is the key of a node. *)
Theorem edges_stay_inside (files : list File.SourceFile)
    (k : string) (n : DependencyNode) :
  map_get (nodes (analyzeDependencies files)) k = Some n ->
  forall x, In x (dependencies n) \/ In x (dependents n) ->
            map_has (nodes (analyzeDependencies files)) x = true.
Proof.
  intros Hn x [Hx|Hx].
  - apply map_get_In in Hn.
    exact (@dependencies_are_nodes files k n Hn x Hx).
  - destruct (nodes_get _ _ Hn) as (v0 & Hv0 & (Hpath & Hdeps & _) & ->).
    simpl in Hx. rewrite Hdeps in Hx. simpl in Hx.
    apply In_incoming in Hx as (v & Hin & _).
    apply map_has_In. apply nodes_keys.
    apply firstPass_spec. unfold map_keys. apply in_map_iff.
    now exists (x, v).
Qed.

Lemma edges_stay_inside_witness :
  map_has (nodes (analyzeDependencies twoFiles)) "src/b.ts" = true.
Proof.
  apply (@edges_stay_inside twoFiles "src/a.ts"
           (mkNode "src/a.ts" ["./b"] [] ["src/b.ts"] [])).
  - vm_compute. reflexivity.
  - left. simpl. left. reflexivity.
Defined.

(** The dependents of a node are empty exactly when no node depends on it. *)
Lemma no_dependents_iff (files : list File.SourceFile)
    (k : string) (n : DependencyNode) :
  map_get (nodes (analyzeDependencies files)) k = Some n ->
  (dependents n = [] <->
   forall m mnode, map_get (nodes (analyzeDependencies files)) m = Some mnode ->
                   ~ In k (dependencies mnode)).
Proof.
  intros Hn.
  destruct (nodes_get _ _ Hn) as (v0 & Hv0 & (Hpath & Hdeps & _) & ->).
  simpl. rewrite Hdeps. simpl.
  pose proof (firstPass_spec files) as (Hnd & _ & _).
  split.
  - intros Hnil m mnode Hm Hk.
    simpl in Hm. rewrite map_get_secondPass in Hm.
    destruct (map_get (firstPass files) m) as [v|] eqn:E; simpl in Hm; [|discriminate].
    injection Hm as <-. simpl in Hk.
    assert (Hin : In m (incoming (firstPass files) k)).
    { apply In_incoming. exists v. split; [now apply map_get_In | exact Hk]. }
    rewrite Hnil in Hin. contradiction.
  - intros Hno. destruct (incoming (firstPass files) k) as [|m l] eqn:E; [reflexivity|].
    exfalso.
    assert (Hin : In m (incoming (firstPass files) k)) by (rewrite E; now left).
    apply In_incoming in Hin as (v & Hin & Hk).
    apply (Hno m (withDependents (incoming (firstPass files) m) v)); [|exact Hk].
    simpl. rewrite map_get_secondPass, (In_map_get _ _ _ Hnd Hin). reflexivity.
Qed.

(** X5: a path is reported unused exactly when it is the path of a file,
    matches no entry-point pattern, and is a dependency of no node. *)
Theorem unused_iff_no_incoming_edge (files : list File.SourceFile) (p : string) :
  In p (unusedFiles (analyzeDependencies files)) <->
  In p (map File.path files) /\
  isEntryPoint p = false /\
  forall m mnode,
    map_get (nodes (analyzeDependencies files)) m = Some mnode ->
    ~ In p (dependencies mnode).
Proof.
  change (unusedFiles (analyzeDependencies files))
    with (detectUnused (nodes (analyzeDependencies files))).
  rewrite In_detectUnused. split.
  - intros (v & Hin & Hd & He).
    apply In_map_get in Hin; [|apply nodes_NoDup].
    split; [|split; [exact He|]].
    + apply nodes_keys. apply map_has_In. unfold map_has. now rewrite Hin.
    + now apply (@no_dependents_iff files p v Hin).
  - intros (Hp & He & Hno).
    apply nodes_keys, map_has_In in Hp. unfold map_has in Hp.
    destruct (map_get (nodes (analyzeDependencies files)) p) as [v|] eqn:E;
      [|discriminate].
    exists v. split; [now apply map_get_In|]. split; [|exact He].
    now apply (@no_dependents_iff files p v E).
Qed.

Lemma unused_iff_no_incoming_edge_witness :
  isEntryPoint "util.ts" = false.
Proof.
  apply (proj1 (unused_iff_no_incoming_edge
                  [File.mkFile "util.ts" EmptyString "ts"] "util.ts")).
  vm_compute. left. reflexivity.
Defined.

(** ** Issues *)

(** X6: the issues of an analyzed file set never include a missing
    dependency; there is one error per reported cycle, carrying the cycle,
    followed by one warning per unused file, carrying the file. *)
Theorem issues_of_analysis (files : list File.SourceFile) :
  let g := analyzeDependencies files in
  (forall i, In i (getDependencyIssues g) ->
             DependencyIssue.type i <> DependencyIssue.missing) /\
  map DependencyIssue.files (getDependencyIssues g) =
    (circularDependencies g ++ map (fun f => [f]) (unusedFiles g))%list /\
  map DependencyIssue.severity (getDependencyIssues g) =
    (map (fun _ => DependencyIssue.error) (circularDependencies g) ++
     map (fun _ => DependencyIssue.warning) (unusedFiles g))%list /\
  map DependencyIssue.type (getDependencyIssues g) =
    (map (fun _ => DependencyIssue.circular) (circularDependencies g) ++
     map (fun _ => DependencyIssue.unused) (unusedFiles g))%list.
Proof.
  intros g. subst g. unfold getDependencyIssues.
  rewrite (missingDependencies_always_empty files).
  generalize (circularDependencies (analyzeDependencies files)) as cycles.
  generalize (unusedFiles (analyzeDependencies files)) as unused.
  intros unused cycles. cbn [map app].
  split.
  - intros i Hi. apply in_app_iff in Hi as [Hi|Hi];
      apply in_map_iff in Hi as (x & <- & _); discriminate.
  - rewrite !map_app, !map_map. cbn [DependencyIssue.files
      DependencyIssue.severity DependencyIssue.type].
    rewrite map_id. repeat split.
Qed.

Lemma issues_of_analysis_witness :
  DependencyIssue.type
    (DependencyIssue.mk DependencyIssue.unused DependencyIssue.warning
       ("File " ++ dq ++ "util.ts" ++ dq ++ " is not imported by any other file")
       ["util.ts"]) <> DependencyIssue.missing.
Proof.
  apply (proj1 (issues_of_analysis [File.mkFile "util.ts" EmptyString "ts"])).
  vm_compute. left. reflexivity.
Defined.

End DependencyExtras.

(** * Cycle detection *)

Module CycleProofs.
Import Js Regex DependencyAnalyzer DependencyNotions DependencyProofs ExtraNotions.

(** ** Lists of paths *)

Lemma mem_false_In (x : string) (l : list string) :
  mem x l = false <-> ~ In x l.
Proof.
  split.
  - intros H Hin. apply mem_In in Hin. congruence.
  - intros H. destruct (mem x l) eqn:E; [|reflexivity].
    apply mem_In in E. contradiction.
Qed.

Lemma set_add_fresh (x : string) (l : list string) :
  ~ In x l -> set_add x l = (l ++ [x])%list.
Proof. intros H. unfold set_add. apply mem_false_In in H. now rewrite H. Qed.

Lemma set_delete_last (x : string) (l : list string) :
  ~ In x l -> set_delete x (l ++ [x]) = l.
Proof.
  intros H. unfold set_delete. rewrite filter_app. simpl.
  rewrite String.eqb_refl. simpl. rewrite app_nil_r.
  induction l as [|a l IH]; simpl; [reflexivity|].
  destruct (String.eqb a x) eqn:E.
  - apply String.eqb_eq in E. subst. exfalso. apply H. now left.
  - simpl. rewrite IH; [reflexivity|]. intros Hin. apply H. now right.
Qed.

Lemma indexOf_split (x : string) (l : list string) (i : nat) :
  indexOf x l = Some i ->
  exists pre suf, l = (pre ++ x :: suf)%list /\ List.length pre = i.
Proof.
  revert i. induction l as [|a l IH]; intros i; simpl; [discriminate|].
  destruct (String.eqb a x) eqn:E.
  - apply String.eqb_eq in E. subst a. intros [= <-]. now exists [], l.
  - destruct (indexOf x l) as [j|]; simpl; [|discriminate].
    intros [= <-]. destruct (IH j eq_refl) as (pre & suf & -> & Hlen).
    exists (a :: pre), suf. simpl. now rewrite Hlen.
Qed.

Lemma indexOf_In (x : string) (l : list string) :
  In x l -> exists i, indexOf x l = Some i.
Proof.
  induction l as [|a l IH]; simpl; [contradiction|].
  intros H. destruct (String.eqb a x) eqn:E; [now exists 0|].
  destruct H as [->|H]; [rewrite String.eqb_refl in E; discriminate|].
  destruct (IH H) as (i & ->). now exists (S i).
Qed.

Lemma skipn_app_length {A : Type} (pre l : list A) :
  skipn (List.length pre) (pre ++ l) = l.
Proof. induction pre; simpl; auto. Qed.

(** ** Chains and walks *)

Section Graph.
Variable nodes : NodeMap.

Lemma chain_suffix (pre l : list string) :
  chain nodes (pre ++ l) -> chain nodes l.
Proof.
  induction pre as [|a pre IH]; simpl; [auto|].
  destruct (pre ++ l)%list as [|b t] eqn:E.
  - destruct pre, l; simpl in E; try discriminate. auto.
  - intros [_ H]. apply IH. exact H.
Qed.

Lemma chain_snoc (l : list string) (a b : string) :
  chain nodes (l ++ [a]) -> edge nodes a b -> chain nodes ((l ++ [a]) ++ [b]).
Proof.
  intros Hc He. induction l as [|x l IH]; simpl.
  - split; [exact He | exact I].
  - simpl in Hc. destruct (l ++ [a])%list as [|y t] eqn:E.
    + destruct l; discriminate.
    + simpl. destruct Hc as [Hxy Hc]. split; [exact Hxy|].
      apply IH. exact Hc.
Qed.

Lemma chain_walk (l : list string) (x y : string) :
  chain nodes (x :: l ++ [y]) -> walk nodes x y.
Proof.
  revert x. induction l as [|a l IH]; intros x; simpl.
  - intros [H _]. now apply walk_one.
  - intros [H Hc]. eapply walk_more; [exact H|]. apply IH. exact Hc.
Qed.

Lemma walk_first_edge (x z : string) :
  walk nodes x z -> exists y, edge nodes x y /\ (y = z \/ walk nodes y z).
Proof. intros Hw. inversion Hw; subst; eauto. Qed.

Lemma closed_walk (st : dfs_state) (x z : string) :
  closedFinished nodes st -> walk nodes x z -> finished st x -> finished st z.
Proof.
  intros Hc Hw. induction Hw as [x y H|x y z H Hw IH]; intros Hx.
  - eapply Hc; eassumption.
  - apply IH. eapply Hc; eassumption.
Qed.

Lemma simpleCycle_walk (c : list string) :
  simpleCycle nodes c -> exists x, walk nodes x x.
Proof.
  intros (x & mid & -> & _ & Hc). exists x. now apply chain_walk with mid.
Qed.

(** ** The invariant of the traversal *)

Lemma recordCycle_nonempty (cp : list string) (dep : string)
    (cs : list (list string)) :
  In dep cp -> recordCycle cp dep cs <> [].
Proof.
  intros Hin. unfold recordCycle.
  destruct (indexOf_In dep cp Hin) as (i & ->).
  destruct (existsb _ cs) eqn:E.
  - intros ->. discriminate.
  - intros H. apply app_eq_nil in H as [_ H]. discriminate.
Qed.

Lemma recordCycle_simple (cp : list string) (p dep : string)
    (cs : list (list string)) :
  NoDup (cp ++ [p]) -> chain nodes (cp ++ [p]) -> edge nodes p dep ->
  Forall (simpleCycle nodes) cs ->
  Forall (simpleCycle nodes) (recordCycle (cp ++ [p]) dep cs).
Proof.
  intros Hnd Hc He Hcs. unfold recordCycle.
  destruct (indexOf dep (cp ++ [p])) as [i|] eqn:Ei; [|exact Hcs].
  destruct (existsb _ cs); [exact Hcs|].
  apply Forall_app. split; [exact Hcs|]. constructor; [|constructor].
  apply indexOf_split in Ei as (pre & suf & E & <-).
  rewrite E, skipn_app_length.
  exists dep, suf. split; [reflexivity|]. split.
  - rewrite E in Hnd. apply NoDup_app_remove_l in Hnd. exact Hnd.
  - (* the suffix ends with [p], which has an edge to [dep] *)
    assert (Hsuf : exists l, (dep :: suf = l ++ [p])%list).
    { destruct (exists_last (l := dep :: suf)) as (l & a & El); [discriminate|].
      exists l. rewrite El. f_equal. f_equal.
      assert (H : (cp ++ [p] = (pre ++ l) ++ [a])%list).
      { rewrite E, <- app_assoc, <- El. reflexivity. }
      apply app_inj_tail in H as [_ H]. now subst. }
    destruct Hsuf as (l & El).
    change (dep :: suf ++ [dep])%list with ((dep :: suf) ++ [dep])%list.
    rewrite El. apply chain_snoc; [|exact He].
    rewrite <- El. rewrite E in Hc. now apply chain_suffix in Hc.
Qed.

Lemma finished_grows (st st' : dfs_state) (x : string) :
  recursionStack st' = recursionStack st ->
  grows (visited st) (visited st') ->
  finished st x -> finished st' x.
Proof.
  intros Hs Hg [H1 H2]. split; [now apply Hg | now rewrite Hs].
Qed.

(** Entering [dfs(p, cp)]: [p] is marked and pushed. *)
Lemma invariant_push (cp : list string) (p : string) (st : dfs_state) :
  dfsInvariant nodes cp st -> mem p (visited st) = false ->
  dfsInvariant nodes (cp ++ [p])
    (mkDfs (set_add p (visited st)) (set_add p (recursionStack st)) (circular st)).
Proof.
  intros (Hs & Hnd & Hv & Hgood & Hfin) Hp.
  assert (Hpcp : ~ In p cp).
  { intros H. apply Hv in H. congruence. }
  assert (Hsame : forall x,
             finished (mkDfs (set_add p (visited st))
                             (set_add p (recursionStack st)) (circular st)) x <->
             finished st x).
  { intros x. unfold finished. simpl.
    rewrite Hs, (set_add_fresh _ _ Hpcp), mem_set_add.
    unfold mem at 2. rewrite existsb_app. fold (mem x cp). simpl.
    rewrite orb_false_r.
    destruct (String.eqb x p) eqn:E; simpl.
    - apply String.eqb_eq in E. subst x. rewrite Hp, orb_true_r.
      split; intros [? ?]; discriminate.
    - rewrite orb_false_r. reflexivity. }
  unfold dfsInvariant. simpl. split; [|split; [|split; [|split]]].
  - rewrite Hs. now apply set_add_fresh.
  - apply NoDup_app; [exact Hnd | repeat constructor; simpl; tauto|].
    intros x Hx [<-|[]]. contradiction.
  - intros x Hx. rewrite mem_set_add. apply in_app_iff in Hx as [Hx|[<-|[]]].
    + rewrite (Hv x Hx). apply orb_true_r.
    + now rewrite String.eqb_refl.
  - exact Hgood.
  - intros Hnil. destruct (Hfin Hnil) as [Hc Ha]. split.
    + intros x y Hx He. apply Hsame. apply Hsame in Hx.
      eapply Hc; eassumption.
    + intros x Hx. apply Hsame in Hx. now apply Ha.
Qed.

(** Leaving [dfs(p, cp)]: [p] is popped, and is then finished. *)
Lemma invariant_pop (cp : list string) (p : string) (st : dfs_state) :
  dfsInvariant nodes (cp ++ [p]) st ->
  (circular st = [] -> forall y, edge nodes p y -> finished st y) ->
  dfsInvariant nodes cp
    (mkDfs (visited st) (set_delete p (recursionStack st)) (circular st)).
Proof.
  intros (Hs & Hnd & Hv & Hgood & Hfin) Hdeps.
  assert (Hpcp : ~ In p cp).
  { apply NoDup_remove_2 with (l' := []) in Hnd. now rewrite app_nil_r in Hnd. }
  assert (Hpv : mem p (visited st) = true).
  { apply Hv. apply in_or_app. right. now left. }
  assert (Hstack : set_delete p (recursionStack st) = cp).
  { rewrite Hs. now apply set_delete_last. }
  set (st' := mkDfs (visited st) (set_delete p (recursionStack st)) (circular st)).
  assert (Hold : forall x, finished st x -> finished st' x).
  { intros x [H1 H2]. split; [exact H1|]. simpl. rewrite Hstack.
    rewrite Hs in H2. apply mem_false_In. apply mem_false_In in H2.
    intros H. apply H2. apply in_or_app. now left. }
  assert (Hnew : forall x, finished st' x -> x = p \/ finished st x).
  { intros x [H1 H2]. simpl in H1, H2. rewrite Hstack in H2.
    destruct (string_dec x p) as [->|Hne]; [now left|]. right.
    split; [exact H1|]. rewrite Hs. apply mem_false_In.
    apply mem_false_In in H2. intros H. apply in_app_iff in H as [H|[H|[]]].
    - contradiction.
    - now subst. }
  assert (Hnotfin : ~ finished st p).
  { intros [_ H]. rewrite Hs in H. apply mem_false_In in H. apply H.
    apply in_or_app. right. now left. }
  unfold dfsInvariant. split; [|split; [|split; [|split]]].
  - exact Hstack.
  - now apply NoDup_app_remove_r in Hnd.
  - intros x Hx. simpl. apply Hv. apply in_or_app. now left.
  - exact Hgood.
  - simpl. intros Hnil. destruct (Hfin Hnil) as [Hc Ha]. split.
    + intros x y Hx He. apply Hold. destruct (Hnew x Hx) as [->|Hx'].
      * now apply Hdeps.
      * eapply Hc; eassumption.
    + intros x Hx Hw. destruct (Hnew x Hx) as [->|Hx'].
      * apply walk_first_edge in Hw as (y & He & [->|Hw]).
        -- apply Hnotfin. now apply Hdeps.
        -- apply Hnotfin. eapply closed_walk; [exact Hc | exact Hw|].
           now apply Hdeps.
      * now apply (Ha x).
Qed.

Lemma forDeps_spec (fuel : nat) (cp : list string) (p : string) :
  dfsSpec nodes fuel ->
  chain nodes (cp ++ [p]) ->
  forall deps st st',
    (forall d, In d deps -> edge nodes p d) ->
    dfsInvariant nodes (cp ++ [p]) st ->
    forDeps (fun dep st => dfs nodes fuel dep (cp ++ [p]) st) (cp ++ [p]) deps st
      = Some st' ->
    dfsInvariant nodes (cp ++ [p]) st' /\
    grows (visited st) (visited st') /\
    (circular st' = [] ->
     circular st = [] /\ forall d, In d deps -> finished st' d).
Proof.
  intros Hrec Hchain deps.
  induction deps as [|d deps IH]; intros st st' Hedges Hinv; simpl.
  - intros [= <-]. split; [exact Hinv|]. split; [now intros x|].
    intros Hnil. split; [exact Hnil | intros d []].
  - assert (Hedges' : forall d', In d' deps -> edge nodes p d')
      by (intros; apply Hedges; now right).
    assert (He : edge nodes p d) by (apply Hedges; now left).
    destruct (mem d (visited st)) eqn:Ed; simpl.
    + destruct (mem d (recursionStack st)) eqn:Es.
      * (* [d] is on the stack: a cycle is recorded *)
        intros Hloop.
        destruct Hinv as (Hs & Hnd & Hv & Hgood & Hfin).
        assert (Hdcp : In d (cp ++ [p])).
        { rewrite <- Hs. now apply mem_In. }
        pose proof (@recordCycle_nonempty (cp ++ [p])%list d (circular st) Hdcp) as Hne.
        assert (Hinv1 : dfsInvariant nodes (cp ++ [p])
                          (mkDfs (visited st) (recursionStack st)
                                 (recordCycle (cp ++ [p]) d (circular st)))).
        { unfold dfsInvariant. simpl.
          split; [exact Hs | split; [exact Hnd | split; [exact Hv|]]].
          split; [now apply recordCycle_simple | intros H; contradiction]. }
        destruct (IH _ st' Hedges' Hinv1 Hloop) as (Hinv' & Hg & Hmono).
        split; [exact Hinv' | split; [exact Hg|]].
        intros Hnil. destruct (Hmono Hnil) as [H _]. simpl in H. contradiction.
      * (* [d] was finished before *)
        intros Hloop.
        destruct (IH st st' Hedges' Hinv Hloop) as (Hinv' & Hg & Hmono).
        split; [exact Hinv' | split; [exact Hg|]].
        intros Hnil. destruct (Hmono Hnil) as [H Hfin]. split; [exact H|].
        intros d' [<-|Hd']; [|now apply Hfin].
        apply finished_grows with st; [| exact Hg | now split].
        destruct Hinv as (-> & _). now destruct Hinv' as (-> & _).
    + (* [d] is new: recursive call *)
      destruct (dfs nodes fuel d (cp ++ [p]) st) as [st1|] eqn:E1; [|discriminate].
      intros Hloop.
      destruct (Hrec d (cp ++ [p])%list st st1 Hinv Ed) as (Hinv1 & Hg1 & Hd1 & Hmono1);
        [now apply chain_snoc | exact E1 |].
      destruct (IH st1 st' Hedges' Hinv1 Hloop) as (Hinv' & Hg & Hmono).
      split; [exact Hinv'|]. split; [intros x Hx; apply Hg, Hg1, Hx|].
      intros Hnil. destruct (Hmono Hnil) as [H Hfin].
      split; [now apply Hmono1|].
      intros d' [<-|Hd']; [|now apply Hfin].
      apply finished_grows with st1; [| exact Hg |].
      * destruct Hinv1 as (-> & _). now destruct Hinv' as (-> & _).
      * split; [exact Hd1|].
        destruct Hinv1 as (-> & _). destruct Hinv as (_ & _ & Hv & _).
        apply mem_false_In. intros Hin. apply Hv in Hin. congruence.
Qed.

Lemma dfs_spec (fuel : nat) : dfsSpec nodes fuel.
Proof.
  induction fuel as [|fuel IH]; intros p cp st st' Hinv Hp Hchain; [discriminate|].
  simpl.
  pose proof (@invariant_push cp p st Hinv Hp) as Hinv0.
  set (st0 := mkDfs (set_add p (visited st)) (set_add p (recursionStack st))
                    (circular st)) in *.
  assert (Hg0 : grows (visited st) (visited st0)).
  { intros x Hx. simpl. rewrite mem_set_add, Hx. apply orb_true_r. }
  destruct (map_get nodes p) as [node|] eqn:En.
  - destruct (forDeps _ _ _ _) as [st2|] eqn:E2; [|discriminate].
    intros [= <-].
    destruct (@forDeps_spec fuel cp p IH Hchain (dependencies node) st0 st2)
      as (Hinv2 & Hg2 & Hmono); [| exact Hinv0 | exact E2 |].
    { intros d Hd. now exists node. }
    split; [|split; [|split]].
    + apply invariant_pop; [exact Hinv2|].
      intros Hnil y (node' & Hn' & Hy). rewrite En in Hn'. injection Hn' as <-.
      now apply Hmono.
    + intros x Hx. simpl. apply Hg2, Hg0, Hx.
    + simpl. apply Hg2. simpl. rewrite mem_set_add, String.eqb_refl. reflexivity.
    + simpl. intros Hnil. now apply Hmono.
  - intros [= <-]. split; [|split; [|split]].
    + apply (@invariant_pop cp p st0 Hinv0).
      intros _ y (node' & Hn' & _). rewrite En in Hn'. discriminate.
    + exact Hg0.
    + simpl. rewrite mem_set_add, String.eqb_refl. reflexivity.
    + simpl. auto.
Qed.

Lemma dfsRoots_spec (fuel : nat) (keys : list string) :
  forall st st',
    dfsInvariant nodes [] st ->
    dfsRoots nodes fuel keys st = Some st' ->
    dfsInvariant nodes [] st' /\
    grows (visited st) (visited st') /\
    forall k, In k keys -> mem k (visited st') = true.
Proof.
  induction keys as [|k keys IH]; intros st st' Hinv; cbn [dfsRoots].
  - intros [= <-]. split; [exact Hinv|]. split; [now intros x | intros k []].
  - destruct (mem k (visited st)) eqn:E; cbn [negb].
    + intros H. destruct (IH st st' Hinv H) as (Hinv' & Hg & Hall).
      split; [exact Hinv' | split; [exact Hg|]].
      intros k' [<-|Hk']; [now apply Hg | now apply Hall].
    + destruct (dfs nodes fuel k [] st) as [st1|] eqn:E1; [|discriminate].
      intros H.
      destruct (@dfs_spec fuel k [] st st1 Hinv E) as (Hinv1 & Hg1 & Hk1 & _);
        [exact I | exact E1 |].
      destruct (IH st1 st' Hinv1 H) as (Hinv' & Hg & Hall).
      split; [exact Hinv'|]. split; [intros x Hx; apply Hg, Hg1, Hx|].
      intros k' [<-|Hk']; [now apply Hg | now apply Hall].
Qed.

Lemma initial_invariant : dfsInvariant nodes [] (mkDfs [] [] []).
Proof.
  unfold dfsInvariant. simpl.
  split; [reflexivity | split; [constructor | split; [intros x [] | split]]].
  - constructor.
  - intros _. split.
    + intros x y [H _]. discriminate.
    + intros x [H _]. discriminate.
Qed.

(** The state in which the traversal ends. *)
Lemma runDfs_spec :
  exists st,
    runDfs nodes = Some st /\
    detectCircularDependencies nodes = circular st /\
    dfsInvariant nodes [] st /\
    forall k, In k (map_keys nodes) -> mem k (visited st) = true.
Proof.
  destruct (runDfs_total nodes) as (st & Hst). exists st.
  split; [exact Hst|]. split.
  - unfold detectCircularDependencies. now rewrite Hst.
  - unfold runDfs in Hst.
    destruct (dfsRoots_spec _ _ initial_invariant Hst) as (Hinv & _ & Hall).
    now split.
Qed.

End Graph.

(** X7: every cycle that [detectCircularDependencies] reports is a closed
    loop of the graph: it ends with the path it starts with, goes through no
    other path twice, and each path in it has the next one among the
    dependencies of its node. *)
Theorem reported_cycles_are_cycles (nodes : NodeMap) (c : list string) :
  In c (detectCircularDependencies nodes) -> simpleCycle nodes c.
Proof.
  intros Hc. destruct (runDfs_spec nodes) as (st & _ & Hd & (_ & _ & _ & Hgood & _) & _).
  rewrite Hd in Hc. rewrite Forall_forall in Hgood. now apply Hgood.
Qed.

(** X8: [detectCircularDependencies] reports nothing exactly when the graph
    has no cycle, that is when no path is reached from itself along one or
    more edges. *)
Theorem no_cycle_reported_iff_acyclic (nodes : NodeMap) :
  detectCircularDependencies nodes = [] <-> forall x, ~ walk nodes x x.
Proof.
  destruct (runDfs_spec nodes) as (st & _ & Hd & (Hs & _ & _ & Hgood & Hfin) & Hall).
  rewrite Hd. split.
  - intros Hnil x Hw. destruct (Hfin Hnil) as [_ Ha]. apply (Ha x); [|exact Hw].
    apply walk_first_edge in Hw as (y & (node & Hn & _) & _).
    split.
    + apply Hall. apply map_has_In. unfold map_has. now rewrite Hn.
    + now rewrite Hs.
  - intros Hacyc. destruct (circular st) as [|c cs] eqn:E; [reflexivity|].
    exfalso. apply Forall_inv in Hgood.
    destruct (simpleCycle_walk Hgood) as (x & Hw). now apply (Hacyc x).
Qed.

Lemma no_cycle_reported_iff_acyclic_witness :
  ~ walk (nodes (analyzeDependencies
                   [File.mkFile "src/a.ts" (importOf "./b") "ts";
                    File.mkFile "src/b.ts" EmptyString "ts"]))
         "src/a.ts" "src/a.ts".
Proof.
  apply (proj1 (no_cycle_reported_iff_acyclic
                  (nodes (analyzeDependencies
                            [File.mkFile "src/a.ts" (importOf "./b") "ts";
                             File.mkFile "src/b.ts" EmptyString "ts"])))).
  vm_compute. reflexivity.
Defined.

Lemma reported_cycles_are_cycles_witness :
  simpleCycle
    (nodes (analyzeDependencies
              [File.mkFile "src/a.ts" (importOf "./b") "ts";
               File.mkFile "src/b.ts" (importOf "./a") "ts"]))
    ["src/a.ts"; "src/b.ts"; "src/a.ts"].
Proof.
  apply reported_cycles_are_cycles. vm_compute. left. reflexivity.
Defined.

End CycleProofs.

(** * Properties of the multi-file analyzer *)

Module MultiFileExtras.
Import Js Regex DependencyAnalyzer DependencyNotions DependencyProofs.
Import MultiFileAnalyzer.

Lemma split_go_nonempty (sep s : string) (skip : nat) (cur : string) :
  1 <= List.length (split_go sep s skip cur).
Proof.
  revert skip cur.
  induction s as [|c s IH]; intros [|skip] cur; cbn [split_go];
    try (simpl; lia); try apply IH.
  destruct (String.prefix sep (String c s)); [simpl; lia | apply IH].
Qed.

Lemma split_nonempty (sep s : string) : 1 <= List.length (split sep s).
Proof. apply split_go_nonempty. Qed.

Lemma totalLines_fold (fs : list File.SourceFile) (acc : nat) :
  acc + List.length fs <=
  fold_left (fun sum f => sum + List.length (split nl (File.content f))) fs acc.
Proof.
  revert acc. induction fs as [|f fs IH]; intros acc; simpl; [lia|].
  pose proof (split_nonempty nl (File.content f)).
  specialize (IH (acc + List.length (split nl (File.content f)))). lia.
Qed.

(** X9: whatever the graph, the context has one entry per file, in order;
    its entry points are paths of the files; a file whose path has no node
    in the graph is an entry point; and every file counts for at least one
    line in [totalLines]. *)
Theorem context_shape (fs : list File.SourceFile) (g : DependencyGraph) :
  map FileContext.path (files (buildAnalysisContext fs g)) = map File.path fs /\
  (forall p, In p (entryPoints (buildAnalysisContext fs g)) ->
             In p (map File.path fs)) /\
  (forall f, In f fs -> map_get (nodes g) (File.path f) = None ->
             In (File.path f) (entryPoints (buildAnalysisContext fs g))) /\
  List.length fs <= totalLines (buildAnalysisContext fs g).
Proof.
  unfold buildAnalysisContext. cbn [files entryPoints totalLines].
  split; [|split; [|split]].
  - rewrite map_map. reflexivity.
  - intros p Hp. apply in_map_iff in Hp as (fc & <- & Hfc).
    apply filter_In in Hfc as [Hfc _].
    apply in_map_iff in Hfc as (f & <- & Hf). simpl. now apply in_map.
  - intros f Hf Hnone. apply in_map_iff.
    exists (fileContext g f). split; [reflexivity|].
    apply filter_In. split; [now apply in_map|].
    unfold fileContext. rewrite Hnone. reflexivity.
  - apply (totalLines_fold fs 0).
Qed.

Lemma context_shape_witness :
  In "a.ts"
     (entryPoints (buildAnalysisContext [File.mkFile "a.ts" "x" "ts"]
                                        (mkGraph [] [] [] []))).
Proof.
  apply (proj1 (proj2 (proj2
           (context_shape [File.mkFile "a.ts" "x" "ts"] (mkGraph [] [] [] []))))
           (File.mkFile "a.ts" "x" "ts")).
  - left. reflexivity.
  - reflexivity.
Defined.

(** X10: every file that [analyzeDependencies] reports as unused is listed
    among the entry points of the context built from the same files and
    graph. *)
Theorem unused_files_are_entry_points (fs : list File.SourceFile) (p : string) :
  In p (unusedFiles (analyzeDependencies fs)) ->
  In p (entryPoints (buildAnalysisContext fs (analyzeDependencies fs))).
Proof.
  change (unusedFiles (analyzeDependencies fs))
    with (detectUnused (nodes (analyzeDependencies fs))).
  rewrite In_detectUnused. intros (v & Hin & Hd & _).
  assert (Hget : map_get (nodes (analyzeDependencies fs)) p = Some v).
  { apply In_map_get; [apply nodes_NoDup | exact Hin]. }
  assert (Hp : In p (map File.path fs)).
  { apply nodes_keys. apply map_has_In. unfold map_has. now rewrite Hget. }
  apply in_map_iff in Hp as (f & Hpath & Hf).
  unfold buildAnalysisContext. cbn [entryPoints].
  apply in_map_iff. exists (fileContext (analyzeDependencies fs) f).
  split; [exact Hpath|]. apply filter_In. split; [now apply in_map|].
  unfold fileContext. rewrite Hpath, Hget. cbn [FileContext.dependents].
  now rewrite Hd.
Qed.

Lemma unused_files_are_entry_points_witness :
  In "util.ts"
     (entryPoints
        (buildAnalysisContext [File.mkFile "util.ts" EmptyString "ts"]
           (analyzeDependencies [File.mkFile "util.ts" EmptyString "ts"]))).
Proof.
  apply unused_files_are_entry_points. vm_compute. left. reflexivity.
Defined.

End MultiFileExtras.

(** * Further properties of the code-quality analyzer *)

Module QualityExtras.
Import Js Regex CodeQualityAnalyzer QualityNotions QualityProofs QualityExtraNotions.

(** ** Similarity *)

Lemma countMatches_le (a b : string) :
  countMatches a b <= Nat.min (String.length a) (String.length b).
Proof.
  revert b. induction a as [|c a IH]; intros [|d b]; simpl; try lia.
  specialize (IH b). destruct (Ascii.eqb c d); lia.
Qed.

Lemma countMatches_refl (a : string) : countMatches a a = String.length a.
Proof.
  induction a as [|c a IH]; simpl; [reflexivity|].
  now rewrite Ascii.eqb_refl, IH.
Qed.

Lemma countMatches_max (a b : string) :
  countMatches a b = Nat.max (String.length a) (String.length b) -> a = b.
Proof.
  revert b. induction a as [|c a IH]; intros [|d b]; simpl; try reflexivity;
    try discriminate.
  pose proof (countMatches_le a b) as Hle.
  destruct (Ascii.eqb c d) eqn:E; [|lia].
  apply Ascii.eqb_eq in E. subst d. intros H. f_equal. apply IH. lia.
Qed.

Lemma Zpos_of_nat (n : nat) : n <> 0 -> Z.pos (Pos.of_nat n) = Z.of_nat n.
Proof.
  intros H. destruct n as [|n]; [congruence|].
  rewrite <- Pos.of_nat_succ, Znat.Zpos_P_of_succ_nat. lia.
Qed.

Lemma similarity_range_aux (a b : string) :
  (calculateSimilarity a b <= 1)%Q.
Proof.
  unfold calculateSimilarity.
  pose proof (countMatches_le a b) as Hle.
  destruct (Nat.max (String.length a) (String.length b) =? 0) eqn:E.
  - unfold Qle. simpl. lia.
  - apply Nat.eqb_neq in E.
    unfold Qle. cbn [Qnum Qden]. rewrite (Zpos_of_nat E). lia.
Qed.

(** X11: the similarity of two strings lies between 0 and 1, and it is 1
    exactly when the strings are equal. *)
Theorem similarity_range (a b : string) :
  (0 <= calculateSimilarity a b)%Q /\
  (calculateSimilarity a b <= 1)%Q /\
  ((calculateSimilarity a b == 1)%Q <-> a = b).
Proof.
  unfold calculateSimilarity.
  pose proof (countMatches_le a b) as Hle.
  destruct (Nat.max (String.length a) (String.length b) =? 0) eqn:E.
  - apply Nat.eqb_eq in E.
    assert (Hlen : String.length a = 0 /\ String.length b = 0) by lia.
    destruct Hlen as [Ha Hb].
    destruct a; [|discriminate]. destruct b; [|discriminate].
    split; [unfold Qle; simpl; lia|]. split; [unfold Qle; simpl; lia|].
    split; reflexivity.
  - apply Nat.eqb_neq in E.
    unfold Qle, Qeq. cbn [Qnum Qden]. rewrite (Zpos_of_nat E).
    split; [lia | split; [lia|]]. split.
    + intros H. apply countMatches_max. lia.
    + intros ->. rewrite countMatches_refl, Nat.max_id. lia.
Qed.

(** ** Duplicate findings *)

Lemma In_blocksOfFile (f : File.SourceFile) (b : CodeBlock.t) :
  In b (blocksOfFile f) -> windowOf f b.
Proof.
  unfold blocksOfFile. rewrite in_flat_map. intros (i & Hi & H).
  apply in_seq in Hi. unfold minLines in *.
  destruct (50 <? _); [|contradiction]. destruct H as [<-|[]].
  unfold windowOf.
  cbn [CodeBlock.file CodeBlock.startLine CodeBlock.endLine].
  split; [reflexivity | lia].
Qed.

Lemma In_compareBlocks (l : list CodeBlock.t) (d : DuplicateCode.t) :
  In d (compareBlocks l) ->
  exists b b', In b l /\ In b' l /\ In d (compareWith b [b']).
Proof.
  induction l as [|a l IH]; simpl; [contradiction|].
  rewrite in_app_iff. intros [H|H].
  - unfold compareWith in H. apply in_flat_map in H as (b' & Hb' & H).
    exists a, b'. split; [now left|]. split; [now right|].
    unfold compareWith. simpl. now rewrite app_nil_r.
  - destruct (IH H) as (b & b' & Hb & Hb' & Hd).
    exists b, b'. split; [now right|]. split; [now right | exact Hd].
Qed.

(** X12: a duplicate finding is made of two windows of five lines taken
    from two files of different paths; each window stops before the last
    line of its file, and the similarity is above 0.8 and at most 1. *)
Theorem duplicate_findings_shape (files : list File.SourceFile)
    (d : DuplicateCode.t) :
  In d (findDuplicateCode files) ->
  exists b1 b2 f1 f2,
    DuplicateCode.blocks d = [b1; b2] /\
    DuplicateCode.lines d = 5 /\
    In f1 files /\ In f2 files /\ File.path f1 <> File.path f2 /\
    windowOf f1 b1 /\ windowOf f2 b2 /\
    (8 # 10 < DuplicateCode.similarity d)%Q /\
    (DuplicateCode.similarity d <= 1)%Q.
Proof.
  unfold findDuplicateCode. intros Hd.
  apply In_compareBlocks in Hd as (b1 & b2 & Hb1 & Hb2 & Hd).
  apply In_compareWith in Hd as (b' & [<-|[]] & Ha & Hf & ->).
  apply in_flat_map in Hb1 as (f1 & Hf1 & Hb1).
  apply in_flat_map in Hb2 as (f2 & Hf2 & Hb2).
  apply In_blocksOfFile in Hb1. apply In_blocksOfFile in Hb2.
  exists b1, b2, f1, f2. cbn [DuplicateCode.blocks DuplicateCode.lines
                            DuplicateCode.similarity].
  split; [reflexivity|]. split; [reflexivity|].
  split; [exact Hf1|]. split; [exact Hf2|]. split.
  - apply String.eqb_neq in Hf.
    destruct Hb1 as (<- & _). destruct Hb2 as (<- & _). exact Hf.
  - split; [exact Hb1|]. split; [exact Hb2|]. split.
    + unfold aboveThreshold in Ha. apply negb_true_iff in Ha.
      apply Qnot_le_lt. intros Hle. apply Qle_bool_iff in Hle. congruence.
    + apply similarity_range_aux.
Qed.

Lemma duplicate_findings_shape_witness :
  exists d b1 b2 f1 f2,
    In d (findDuplicateCode [sixLinesA; sixLinesB]) /\
    DuplicateCode.blocks d = [b1; b2] /\
    File.path f1 <> File.path f2 /\
    windowOf f1 b1 /\ windowOf f2 b2 /\
    (8 # 10 < DuplicateCode.similarity d)%Q.
Proof.
  pose (d := nth 0 (findDuplicateCode [sixLinesA; sixLinesB])
                 (DuplicateCode.mk [] 0%Q 0)).
  assert (Hd : In d (findDuplicateCode [sixLinesA; sixLinesB])).
  { vm_compute. left. reflexivity. }
  destruct (duplicate_findings_shape [sixLinesA; sixLinesB] d Hd)
    as (b1 & b2 & f1 & f2 & H1 & _ & _ & _ & H2 & H3 & H4 & H5 & _).
  exists d, b1, b2, f1, f2. repeat (split; [assumption|]). assumption.
Defined.

(** X13: files that all have the same path, a single file in particular,
    give no duplicate finding, whatever they contain. *)
Theorem one_path_has_no_duplicates (files : list File.SourceFile) (p : string) :
  (forall f, In f files -> File.path f = p) ->
  findDuplicateCode files = [].
Proof.
  intros H. unfold findDuplicateCode.
  apply compareBlocks_same_file with p.
  intros b Hb. apply in_flat_map in Hb as (f & Hf & Hb).
  rewrite (blocksOfFile_file f b Hb). now apply H.
Qed.

Lemma one_path_has_no_duplicates_witness :
  findDuplicateCode
    [sixLinesA; File.mkFile "a.ts" (File.content sixLinesA) "ts"] = [].
Proof.
  apply (@one_path_has_no_duplicates
           [sixLinesA; File.mkFile "a.ts" (File.content sixLinesA) "ts"] "a.ts").
  intros f [<-|[<-|[]]]; reflexivity.
Defined.

(** ** Dead-code findings *)

Lemma In_indexed {A : Type} (l : list A) (i : nat) (x : A) :
  In (i, x) (indexed l) -> i < List.length l.
Proof.
  unfold indexed. intros H. apply in_combine_l in H. apply in_seq in H. lia.
Qed.

Lemma importsOfLine_line (index : nat) (line : string) (imp : ImportName) :
  In imp (importsOfLine index line) -> imp_line imp = index + 1.
Proof.
  unfold importsOfLine. intros H.
  repeat (apply in_app_iff in H as [H|H]).
  - destruct (match_first false es6ImportLine line); [|contradiction].
    apply in_map_iff in H as (n & <- & _). reflexivity.
  - destruct (match_first false pythonImportLine line) as [m|]; [|contradiction].
    destruct (group 1 m); [|contradiction].
    apply in_map_iff in H as (n & <- & _). reflexivity.
  - destruct (match_first false javaImportLine line) as [m|]; [|contradiction].
    destruct (group 1 m); [|contradiction]. destruct H as [<-|[]]. reflexivity.
  - destruct (match_first false phpUseLine line) as [m|]; [|contradiction].
    destruct (group 1 m); [|contradiction]. destruct H as [<-|[]]. reflexivity.
  - destruct (match_first false phpRequireLine line) as [m|]; [|contradiction].
    destruct (group 1 m); [|contradiction]. destruct H as [<-|[]]. reflexivity.
Qed.

Lemma extractImports_line (content : string) (imp : ImportName) :
  In imp (extractImports content) ->
  1 <= imp_line imp <= List.length (split nl content).
Proof.
  unfold extractImports. rewrite in_flat_map. intros ([i l] & Hil & H).
  apply In_indexed in Hil. apply importsOfLine_line in H. simpl in H. lia.
Qed.

Lemma functionFound_line (r : regex) (line : string) (index : nat)
    (body : string) (fn : FunctionInfo) :
  In fn (functionFound r line index body) -> fn_line fn = index + 1.
Proof.
  unfold functionFound.
  destruct (match_first false r line) as [m|]; [|contradiction].
  destruct (group 1 m); [|contradiction]. intros [<-|[]]. reflexivity.
Qed.

Lemma extractFunctions_line (content : string) (fn : FunctionInfo) :
  In fn (extractFunctions content) ->
  1 <= fn_line fn <= List.length (split nl content).
Proof.
  unfold extractFunctions. rewrite in_flat_map. intros ([i l] & Hil & H).
  apply In_indexed in Hil. unfold functionsOfLine in H. cbn [fst snd] in H.
  assert (Hl : fn_line fn = i + 1).
  { repeat (apply in_app_iff in H as [H|H]);
      try (eapply functionFound_line; exact H).
    destruct (negb (includes l "class ")); [|contradiction].
    eapply functionFound_line; exact H. }
  lia.
Qed.

Lemma extractVariables_line (content : string) (v : VariableInfo) :
  In v (extractVariables content) ->
  1 <= var_line v <= List.length (split nl content).
Proof.
  unfold extractVariables. rewrite in_flat_map. intros ([i l] & Hil & H).
  apply In_indexed in Hil. cbn [fst snd] in H.
  destruct (match_first false variableDecl l) as [m|]; [|contradiction].
  destruct (group 1 m); [|contradiction]. destruct H as [<-|[]]. simpl. lia.
Qed.

(** X14: a dead-code finding is an import, a function or a variable, never
    a class; it names one of the files, and its line is a line of that
    file. *)
Theorem dead_code_findings_shape (files : list File.SourceFile)
    (g : DependencyAnalyzer.DependencyGraph) (d : DeadCode.t) :
  In d (findDeadCode files g) ->
  DeadCode.type d <> DeadCode.class /\
  exists f, In f files /\ DeadCode.file d = File.path f /\
            lineOf f (DeadCode.line d).
Proof.
  unfold findDeadCode. rewrite in_flat_map. intros (f & Hf & H).
  unfold deadCodeOfFile in H.
  repeat (apply in_app_iff in H as [H|H]).
  - unfold unusedImports in H. apply in_flat_map in H as (imp & Himp & H).
    destruct (negb _); [|contradiction]. destruct H as [<-|[]].
    split; [discriminate|]. exists f. split; [exact Hf|]. split; [reflexivity|].
    now apply extractImports_line.
  - unfold unusedFunctions in H. apply in_flat_map in H as (fn & Hfn & H).
    destruct (_ && _); [|contradiction]. destruct H as [<-|[]].
    split; [discriminate|]. exists f. split; [exact Hf|]. split; [reflexivity|].
    now apply extractFunctions_line.
  - unfold unusedVariables in H. apply in_flat_map in H as (v & Hv & H).
    destruct (_ =? 1); [|contradiction]. destruct H as [<-|[]].
    split; [discriminate|]. exists f. split; [exact Hf|]. split; [reflexivity|].
    now apply extractVariables_line.
Qed.

Lemma dead_code_findings_shape_witness :
  DeadCode.type
    (DeadCode.mk DeadCode.variable "total" "a.ts" 1
       "Variable is declared but never used") <> DeadCode.class.
Proof.
  apply (dead_code_findings_shape
           [File.mkFile "a.ts" "const total = 1" "ts"]
           (DependencyAnalyzer.analyzeDependencies
              [File.mkFile "a.ts" "const total = 1" "ts"])).
  vm_compute. left. reflexivity.
Defined.

(** ** Redundant-code findings *)

Lemma never_test (r : regex) (s : string) :
  RegexNotions.never r -> test false r s = false.
Proof.
  intros H. unfold test, match_first.
  assert (Hs : forall p idx, search_from false r p s idx = None).
  { induction s as [|c s IH]; intros p idx; simpl;
      unfold match_here; rewrite H; [reflexivity | apply IH]. }
  now rewrite Hs.
Qed.

(** The rule for [if (true)] and [if (false)] cannot fire: its pattern asks
    for the word after the end of the line. *)
Lemma ifLiteral_never (word : string) (line : string) :
  word <> EmptyString -> test false (ifLiteral word) line = false.
Proof.
  intros Hw. apply never_test. unfold ifLiteral.
  apply RegexProofs.never_seq, RegexProofs.never_seq.
  intros [p [|c s] cs] k; [|reflexivity].
  destruct word as [|w word]; [contradiction|].
  destruct word; reflexivity.
Qed.

Lemma In_when (A : Type) (b : bool) (x y : A) :
  In y (when_ b x) -> b = true /\ y = x.
Proof. destruct b; simpl; [intros [<-|[]]; auto | contradiction]. Qed.

Lemma redundantOfLine_shape (f : File.SourceFile) (index : nat) (line : string)
    (r : RedundantCode.t) :
  In r (redundantOfLine f index line) ->
  RedundantCode.file r = File.path f /\
  RedundantCode.line r = index + 1 /\
  RedundantCode.type r <> RedundantCode.duplicate_logic /\
  (RedundantCode.type r = RedundantCode.redundant_condition ->
   File.language f = "py" /\
   RedundantCode.message r = "Condition is always True").
Proof.
  unfold redundantOfLine.
  rewrite (@ifLiteral_never "true" line) by discriminate.
  rewrite (@ifLiteral_never "false" line) by discriminate.
  cbn [when_ app]. intros H.
  repeat (apply in_app_iff in H as [H|H]).
  - destruct (String.eqb (File.language f) "py") eqn:E; [|contradiction].
    apply String.eqb_eq in E.
    apply in_app_iff in H as [H|H]; apply In_when in H as [_ ->]; simpl;
      repeat split; try discriminate; auto.
  - destruct (String.eqb (File.language f) "java"); [|contradiction].
    apply In_when in H as [_ ->]; simpl; repeat split; discriminate.
  - destruct (String.eqb (File.language f) "php"); [|contradiction].
    apply In_when in H as [_ ->]; simpl; repeat split; discriminate.
  - apply In_when in H as [_ ->]; simpl; repeat split; discriminate.
  - apply In_when in H as [_ ->]; simpl; repeat split; discriminate.
Qed.

(** X15: a redundant-code finding names one of the files and a line of it;
    it is never of type [duplicate_logic], and it is of type
    [redundant_condition] only for a file of language [py], with the message
    of the rule for [if True:]: the rules for [if (true)] and [if (false)]
    never fire. *)
Theorem redundant_findings_shape (files : list File.SourceFile)
    (r : RedundantCode.t) :
  In r (findRedundantCode files) ->
  exists f,
    In f files /\
    RedundantCode.file r = File.path f /\
    lineOf f (RedundantCode.line r) /\
    RedundantCode.type r <> RedundantCode.duplicate_logic /\
    (RedundantCode.type r = RedundantCode.redundant_condition ->
     File.language f = "py" /\
     RedundantCode.message r = "Condition is always True").
Proof.
  unfold findRedundantCode. rewrite in_flat_map. intros (f & Hf & H).
  apply in_flat_map in H as ([i l] & Hil & H). cbn [fst snd] in H.
  apply In_indexed in Hil.
  apply redundantOfLine_shape in H as (H1 & H2 & H3 & H4).
  exists f. split; [exact Hf|]. split; [exact H1|]. split; [|split; assumption].
  unfold lineOf. lia.
Qed.

Lemma redundant_findings_shape_witness :
  exists r f,
    In r (findRedundantCode [File.mkFile "a.ts" "if (true) { console.log(1) }" "ts"]) /\
    RedundantCode.file r = File.path f /\
    RedundantCode.type r <> RedundantCode.duplicate_logic.
Proof.
  pose (fs := [File.mkFile "a.ts" "if (true) { console.log(1) }" "ts"]).
  pose (r := nth 0 (findRedundantCode fs)
               (RedundantCode.mk RedundantCode.duplicate_logic
                  EmptyString 0 EmptyString EmptyString)).
  assert (Hr : In r (findRedundantCode fs)).
  { vm_compute. left. reflexivity. }
  destruct (redundant_findings_shape fs r Hr) as (f & _ & H1 & _ & H2 & _).
  exists r, f. split; [exact Hr | split; assumption].
Defined.

(** The line [if (true) { console.log(1) }] only has the console finding. *)
Example if_true_is_not_reported :
  map RedundantCode.message
      (findRedundantCode [File.mkFile "a.ts" "if (true) { console.log(1) }" "ts"])
  = ["Console statement found"].
Proof. vm_compute. reflexivity. Qed.

(** ** Complexity findings *)

(** X18: a complexity finding names one of the files and a function found
    in it, at a line of that file, and its complexity is the cyclomatic
    complexity of the body of that function, which is more than 10. *)
Theorem complexity_findings_shape (files : list File.SourceFile)
    (c : ComplexityIssue.t) :
  In c (analyzeComplexity files) ->
  10 < ComplexityIssue.complexity c /\
  exists f fn,
    In f files /\ In fn (extractFunctions (File.content f)) /\
    ComplexityIssue.file c = File.path f /\
    ComplexityIssue.function c = fn_name fn /\
    ComplexityIssue.complexity c = calculateCyclomaticComplexity (fn_body fn) /\
    ComplexityIssue.line c = fn_line fn /\
    lineOf f (ComplexityIssue.line c).
Proof.
  unfold analyzeComplexity. rewrite in_flat_map. intros (f & Hf & H).
  apply in_flat_map in H as (fn & Hfn & H).
  destruct (10 <? _) eqn:E; [|contradiction]. destruct H as [<-|[]].
  apply Nat.ltb_lt in E. cbn [ComplexityIssue.complexity ComplexityIssue.file
    ComplexityIssue.function ComplexityIssue.line].
  split; [exact E|]. exists f, fn.
  split; [exact Hf|]. split; [exact Hfn|].
  repeat (split; [reflexivity|]).
  now apply extractFunctions_line.
Qed.

Lemma complexity_findings_shape_witness :
  10 < ComplexityIssue.complexity (ComplexityIssue.mk "busy.ts" "pick" 11 1).
Proof.
  apply (complexity_findings_shape [busyFile]
           (ComplexityIssue.mk "busy.ts" "pick" 11 1)).
  vm_compute. left. reflexivity.
Defined.

(** ** Functions found twice *)

Lemma In_combine_seq {A : Type} (l : list A) (start i : nat) (x : A) :
  nth_error l i = Some x ->
  In (start + i, x) (combine (seq start (List.length l)) l).
Proof.
  revert start i. induction l as [|a l IH]; intros start i H.
  - destruct i; discriminate.
  - destruct i as [|i]; simpl in H |- *.
    + injection H as ->. left. f_equal. lia.
    + right. replace (start + S i) with (S start + i) by lia.
      now apply IH.
Qed.

Lemma In_indexed_nth {A : Type} (l : list A) (i : nat) (x : A) :
  nth_error l i = Some x -> In (i, x) (indexed l).
Proof. intros H. apply (In_combine_seq l 0 i H). Qed.

Lemma functionsOfLine_twice (content line name : string) (index : nat)
    (m : rmatch_result) :
  match_first false functionDecl line = Some m ->
  group 1 m = Some name ->
  exists between,
    functionsOfLine content index line =
      (mkFunction name (index + 1) (extractFunctionBody content index) ::
       between ++
       [mkFunction name (index + 1) (extractFunctionBody content index)])%list.
Proof.
  intros Hm Hname. unfold functionsOfLine. unfold functionFound at 1 5.
  rewrite Hm, Hname. cbn [app]. eexists. f_equal.
  rewrite !app_assoc. reflexivity.
Qed.

(** X21: the rule for JavaScript declarations and the rule for PHP
    declarations are the same pattern, so a line with a [function]
    declaration puts its function into the result of [extractFunctions]
    twice. *)
Theorem function_declarations_found_twice (content line name : string)
    (index : nat) (m : rmatch_result) :
  nth_error (split nl content) index = Some line ->
  match_first false functionDecl line = Some m ->
  group 1 m = Some name ->
  exists before between after,
    extractFunctions content =
      (before ++
       mkFunction name (index + 1) (extractFunctionBody content index) ::
       between ++
       mkFunction name (index + 1) (extractFunctionBody content index) ::
       after)%list.
Proof.
  intros Hline Hm Hname. unfold extractFunctions.
  apply In_indexed_nth, in_split in Hline as (l1 & l2 & ->).
  rewrite flat_map_app. cbn [flat_map fst snd].
  destruct (@functionsOfLine_twice content line name index m Hm Hname)
    as (between & ->).
  exists (flat_map (fun il => functionsOfLine content (fst il) (snd il)) l1),
         between,
         (flat_map (fun il => functionsOfLine content (fst il) (snd il)) l2).
  cbn [app]. rewrite <- app_assoc. reflexivity.
Qed.

Lemma function_declarations_found_twice_witness :
  exists before between after,
    extractFunctions (File.content busyFile) =
      (before ++
       mkFunction "pick" 1 (extractFunctionBody (File.content busyFile) 0) ::
       between ++
       mkFunction "pick" 1 (extractFunctionBody (File.content busyFile) 0) ::
       after)%list.
Proof.
  apply (@function_declarations_found_twice (File.content busyFile)
           (File.content busyFile) "pick" 0
           (Match 0 "function pick(" [(1, "pick")])).
  - vm_compute. reflexivity.
  - vm_compute. reflexivity.
  - vm_compute. reflexivity.
Defined.

End QualityExtras.

(** * Entry points *)

Module EntryPointProofs.
Import Js Regex EntryPointNotions.

(** ** Reading a successful match backwards *)

Lemma step_char_inv (st : mstate) (p : ascii -> bool)
    (k : mstate -> option mstate) (e : mstate) :
  step_char st p k = Some e ->
  exists c s', rest st = String c s' /\ p c = true /\
               k (MState (Some c) s' (caps st)) = Some e.
Proof.
  unfold step_char. destruct (rest st) as [|c s']; [discriminate|].
  destruct (p c) eqn:E; [|discriminate]. intros H. now exists c, s'.
Qed.

Lemma rmatch_lit_inv (multiline : bool) (w : string) :
  forall pv s cs k e,
    rmatch multiline (lit w) (MState pv s cs) k = Some e ->
    exists s' pv', s = w ++ s' /\ k (MState pv' s' cs) = Some e.
Proof.
  induction w as [|c w IH]; intros pv s cs k e; simpl.
  - intros H. now exists s, pv.
  - destruct w as [|c' w'].
    + simpl. intros H. apply step_char_inv in H as (c0 & s' & Hs & Hc & H).
      simpl in Hs, H. apply Ascii.eqb_eq in Hc. subst. now exists s', (Some c0).
    + cbn [rmatch]. intros H.
      apply step_char_inv in H as (c0 & s1 & Hs & Hc & H).
      simpl in Hs, H. apply Ascii.eqb_eq in Hc. subst.
      apply IH in H as (s' & pv' & -> & H). now exists s', pv'.
Qed.

Lemma rmatch_lit_intro (multiline : bool) (w : string) :
  forall pv s' cs k,
    exists pv', rmatch multiline (lit w) (MState pv (w ++ s') cs) k
                = k (MState pv' s' cs).
Proof.
  induction w as [|c w IH]; intros pv s' cs k; simpl.
  - now exists pv.
  - destruct w as [|c' w'].
    + simpl. unfold step_char. simpl. rewrite Ascii.eqb_refl. now exists (Some c).
    + cbn [rmatch]. unfold step_char at 1. cbn [rest caps].
      rewrite Ascii.eqb_refl. apply IH.
Qed.

(** A match found by the search starts at the end of some prefix of the
    input; only the empty prefix has no character before the match. *)
Lemma search_from_inv (multiline : bool) (r : regex) :
  forall s pv idx m,
    search_from multiline r pv s idx = Some m ->
    exists pre suf pv',
      s = pre ++ suf /\
      (pv' = None -> pv = None /\ pre = EmptyString) /\
      rmatch multiline r (MState pv' suf []) (fun st => Some st) <> None.
Proof.
  induction s as [|c s IH]; intros pv idx m; simpl.
  - unfold match_here.
    destruct (rmatch multiline r (MState pv EmptyString []) _) eqn:E; [|discriminate].
    intros _. exists EmptyString, EmptyString, pv.
    split; [reflexivity|]. split; [auto|]. rewrite E. discriminate.
  - unfold match_here at 1.
    destruct (rmatch multiline r (MState pv (String c s) []) _) eqn:E.
    + intros _. exists EmptyString, (String c s), pv.
      split; [reflexivity|]. split; [auto|]. rewrite E. discriminate.
    + intros H. apply IH in H as (pre & suf & pv' & -> & Hpv & H).
      exists (String c pre), suf, pv'. split; [reflexivity|].
      split; [|exact H]. intros Hnone. destruct (Hpv Hnone). discriminate.
Qed.

(** A match at the end of a prefix is found, or an earlier one is. *)
Lemma search_from_intro (multiline : bool) (r : regex) (suf : string) :
  (forall pv, rmatch multiline r (MState pv suf []) (fun st => Some st) <> None) ->
  forall pre pv idx, search_from multiline r pv (pre ++ suf) idx <> None.
Proof.
  intros H pre. induction pre as [|c pre IH]; intros pv idx.
  - simpl. destruct suf as [|c s]; simpl; unfold match_here;
      destruct (rmatch multiline r _ _) eqn:E; try discriminate;
      exfalso; now apply (H pv).
  - simpl. destruct (match_here _ _ _ _ _); [discriminate | apply IH].
Qed.

Lemma test_true_iff (multiline : bool) (r : regex) (s : string) :
  test multiline r s = true <-> search_from multiline r None s 0 <> None.
Proof.
  unfold test, match_first. destruct (search_from _ _ _ _ _).
  - split; [discriminate | reflexivity].
  - split; [discriminate | congruence].
Qed.

Lemma search_from_here (multiline : bool) (r : regex) (pv : option ascii)
    (s : string) (idx : nat) :
  rmatch multiline r (MState pv s []) (fun st => Some st) <> None ->
  search_from multiline r pv s idx <> None.
Proof.
  intros H. destruct s as [|c s]; simpl; unfold match_here;
    destruct (rmatch multiline r _ _); try discriminate; congruence.
Qed.

Lemma opt_char_inv (st : mstate) (c : ascii)
    (k : mstate -> option mstate) (e : mstate) :
  or_else
    (step_char st (Ascii.eqb c)
       (fun st' => if consumed st st' =? 0 then None else k st'))
    (fun _ => k st) = Some e ->
  (exists s', rest st = String c s' /\
              k (MState (Some c) s' (caps st)) = Some e) \/
  k st = Some e.
Proof.
  intros H. apply RegexProofs.or_else_Some in H as [H|H].
  - apply step_char_inv in H as (c0 & s' & Hs & Hc & H).
    apply Ascii.eqb_eq in Hc. subst.
    destruct (consumed _ _ =? 0); [discriminate|]. left. now exists s'.
  - now right.
Qed.

Lemma eol_inv (st : mstate) (a : option mstate) (e : mstate) :
  (if at_eol false st then a else None) = Some e -> rest st = EmptyString.
Proof.
  unfold at_eol. destruct (rest st); [auto | discriminate].
Qed.

(** ** The two shapes of pattern *)

Lemma startPattern_test (w p : string) :
  test false (startPattern w) p = true <-> exists s, p = w ++ "." ++ s.
Proof.
  rewrite test_true_iff. split.
  - intros H. destruct (search_from false (startPattern w) None p 0) as [m|] eqn:E;
      [|congruence].
    apply search_from_inv in E as (pre & suf & pv' & -> & Hpv & Hm).
    destruct (rmatch false (startPattern w) _ _) as [e|] eqn:Er; [|congruence].
    unfold startPattern in Er. cbn [rseq rmatch] in Er.
    unfold at_bol in Er. cbn [prev] in Er.
    destruct pv' as [c|]; [simpl in Er; discriminate|].
    destruct (Hpv eq_refl) as [_ ->].
    apply rmatch_lit_inv in Er as (s' & pv' & -> & Er).
    apply step_char_inv in Er as (c & s2 & Hs & Hc & _).
    simpl in Hs. apply Ascii.eqb_eq in Hc. subst. now exists s2.
  - intros (s & ->). apply search_from_here.
    unfold startPattern. cbn [rseq rmatch]. unfold at_bol. cbn [prev].
    match goal with
    | |- context [rmatch false (lit w) _ ?k] =>
        destruct (rmatch_lit_intro false w None ("." ++ s) [] k) as (pv' & ->)
    end.
    discriminate.
Qed.

Lemma extensionEnd_inv (pv : option ascii) (s : string)
    (cs : list (nat * string)) (k : mstate -> option mstate) (e : mstate) :
  rmatch false extensionEnd (MState pv s cs) k = Some e ->
  exists ext, In ext ["ts"; "tsx"; "js"; "jsx"] /\ s = "." ++ ext.
Proof.
  unfold extensionEnd. cbn [rseq rmatch lit]. intros H.
  apply step_char_inv in H as (c & s1 & Hs & Hc & H).
  cbn [rest caps] in *. apply Ascii.eqb_eq in Hc. subst.
  apply RegexProofs.or_else_Some in H as [H|H];
    apply step_char_inv in H as (c1 & s2 & Hs1 & Hc1 & H);
    cbn [rest caps] in *; apply Ascii.eqb_eq in Hc1; subst;
    apply step_char_inv in H as (c2 & s3 & Hs2 & Hc2 & H);
    cbn [rest caps] in *; apply Ascii.eqb_eq in Hc2; subst;
    apply opt_char_inv in H as [(s4 & Hs3 & H)|H];
    cbn [rest caps] in *; subst;
    apply eol_inv in H; cbn [rest] in H; subst.
  - exists "tsx". simpl. auto.
  - exists "ts". simpl. auto.
  - exists "jsx". simpl. auto 6.
  - exists "js". simpl. auto.
Qed.

Lemma endPattern_test (w p : string) :
  test false (endPattern w) p = true <->
  exists s ext, In ext ["ts"; "tsx"; "js"; "jsx"] /\ p = s ++ w ++ "." ++ ext.
Proof.
  rewrite test_true_iff. split.
  - intros H. destruct (search_from false (endPattern w) None p 0) as [m|] eqn:E;
      [|congruence].
    apply search_from_inv in E as (pre & suf & pv' & -> & _ & Hm).
    destruct (rmatch false (endPattern w) _ _) as [e|] eqn:Er; [|congruence].
    unfold endPattern in Er. cbn [rseq rmatch] in Er.
    apply rmatch_lit_inv in Er as (s' & pv2 & -> & Er).
    apply extensionEnd_inv in Er as (ext & Hext & ->).
    now exists pre, ext.
  - intros (s & ext & Hext & ->). apply search_from_intro.
    intros pv. unfold endPattern. cbn [rseq rmatch].
    match goal with
    | |- context [rmatch false (lit w) _ ?k] =>
        destruct (rmatch_lit_intro false w pv ("." ++ ext) [] k) as (pv' & ->)
    end.
    simpl in Hext.
    destruct Hext as [<-|[<-|[<-|[<-|[]]]]]; vm_compute; discriminate.
Qed.

Lemma In_existsb_map (A : Type) (f : A -> bool) (l : list A) :
  existsb f l = true <-> exists x, In x l /\ f x = true.
Proof. apply existsb_exists. Qed.

(** A list of start patterns followed by end patterns tests true on the
    paths of the corresponding shape. *)
Lemma patterns_test (starts ends : list string) (p : string) :
  existsb (fun pattern => test false pattern p)
          (map startPattern starts ++ map endPattern ends) = true <->
  entryShaped starts ends p.
Proof.
  rewrite existsb_app, orb_true_iff, !existsb_exists. unfold entryShaped.
  split.
  - intros [(r & Hr & Ht)|(r & Hr & Ht)];
      apply in_map_iff in Hr as (w & <- & Hw).
    + left. apply startPattern_test in Ht as (s & ->). now exists w, s.
    + right. apply endPattern_test in Ht as (s & ext & Hext & ->).
      now exists s, w, ext.
  - intros [(w & s & Hw & ->)|(s & w & ext & Hw & Hext & ->)].
    + left. exists (startPattern w). split; [now apply in_map|].
      apply startPattern_test. now exists s.
    + right. exists (endPattern w). split; [now apply in_map|].
      apply endPattern_test. now exists s, ext.
Qed.

(** X16: [isEntryPoint] of the dependency analyzer holds exactly for the
    paths that start with [index.], [main.], [app.], [src/index.] or
    [src/main.], or end with [page] or [layout] followed by [.ts], [.tsx],
    [.js] or [.jsx]; such a path is never reported unused. *)
Theorem entry_points_of_dependency_analyzer (p : string) :
  (DependencyAnalyzer.isEntryPoint p = true <->
   entryShaped ["index"; "main"; "app"; "src/index"; "src/main"]
               ["page"; "layout"] p) /\
  (entryShaped ["index"; "main"; "app"; "src/index"; "src/main"]
               ["page"; "layout"] p ->
   forall files,
     ~ In p (DependencyAnalyzer.unusedFiles
               (DependencyAnalyzer.analyzeDependencies files))).
Proof.
  assert (H : DependencyAnalyzer.isEntryPoint p = true <->
              entryShaped ["index"; "main"; "app"; "src/index"; "src/main"]
                          ["page"; "layout"] p).
  { rewrite <- patterns_test. reflexivity. }
  split; [exact H|].
  intros Hs files Hin.
  change (DependencyAnalyzer.unusedFiles
            (DependencyAnalyzer.analyzeDependencies files))
    with (DependencyAnalyzer.detectUnused
            (DependencyAnalyzer.nodes
               (DependencyAnalyzer.analyzeDependencies files))) in Hin.
  apply DependencyProofs.In_detectUnused in Hin as (v & _ & _ & He).
  apply H in Hs. congruence.
Qed.

Lemma entry_points_of_dependency_analyzer_witness :
  ~ In "app/dashboard/page.tsx"
       (DependencyAnalyzer.unusedFiles
          (DependencyAnalyzer.analyzeDependencies
             [File.mkFile "app/dashboard/page.tsx" EmptyString "tsx"])).
Proof.
  apply (proj2 (entry_points_of_dependency_analyzer "app/dashboard/page.tsx")).
  right. exists "app/dashboard/", "page", "tsx". simpl. auto 6.
Defined.

(** X17: [isEntryPoint] of the multi-file analyzer holds exactly for the
    paths that start with [index.], [main.] or [app.], or end with [page],
    [layout] or [route] followed by [.ts], [.tsx], [.js] or [.jsx]. *)
Theorem entry_points_of_multi_file_analyzer (p : string) :
  MultiFileAnalyzer.isEntryPoint p = true <->
  entryShaped ["index"; "main"; "app"] ["page"; "layout"; "route"] p.
Proof. rewrite <- patterns_test. reflexivity. Qed.

Lemma entry_points_of_multi_file_analyzer_witness :
  entryShaped ["index"; "main"; "app"] ["page"; "layout"; "route"]
              "app/api/route.ts".
Proof.
  apply (proj1 (entry_points_of_multi_file_analyzer "app/api/route.ts")).
  vm_compute. reflexivity.
Defined.

End EntryPointProofs.

(** * Properties of the resolution of relative imports *)

Module ResolveProofs.
Import Js Regex DependencyAnalyzer ResolveNotions.

Lemma append_nil_r (s : string) : s ++ EmptyString = s.
Proof. induction s as [|c s IH]; simpl; congruence. Qed.

Lemma append_assoc (a b c : string) : (a ++ b) ++ c = a ++ b ++ c.
Proof. induction a as [|x a IH]; simpl; congruence. Qed.

Lemma segment_cons (c : ascii) (s : string) :
  segment (String c s) -> c <> "/"%char /\ segment s.
Proof.
  unfold segment. simpl. intros H. split.
  - intros ->. apply H. now left.
  - intros Hin. apply H. now right.
Qed.

Lemma split_go_segment (s rest cur : string) :
  segment s ->
  split_go "/" (s ++ rest) 0 cur = split_go "/" rest 0 (cur ++ s).
Proof.
  revert cur. induction s as [|c s IH]; intros cur Hs.
  - simpl. now rewrite append_nil_r.
  - apply segment_cons in Hs as [Hc Hs].
    change (String c s ++ rest) with (String c (s ++ rest)).
    cbn [split_go String.prefix].
    destruct (ascii_dec "/" c) as [e|_]; [congruence|].
    rewrite IH by exact Hs. now rewrite append_assoc.
Qed.

Lemma prefix_empty (s : string) : String.prefix EmptyString s = true.
Proof. now destruct s. Qed.

Lemma join_cons (x y : string) (l : list string) :
  join "/" (x :: y :: l) = x ++ String "/" (join "/" (y :: l)).
Proof. reflexivity. Qed.

Lemma split_go_join (hd : string) (tl : list string) (cur : string) :
  Forall segment (hd :: tl) ->
  split_go "/" (join "/" (hd :: tl)) 0 cur = (cur ++ hd) :: tl.
Proof.
  revert hd cur. induction tl as [|h2 tl IH]; intros hd cur H.
  - inversion H; subst. change (join "/" [hd]) with hd.
    rewrite <- (append_nil_r hd) at 1. rewrite split_go_segment by assumption.
    reflexivity.
  - inversion H; subst. rewrite join_cons.
    rewrite split_go_segment by assumption.
    cbn [split_go String.prefix String.length Nat.sub].
    destruct (ascii_dec "/" "/") as [_|n]; [|congruence].
    rewrite prefix_empty, IH by assumption. reflexivity.
Qed.

(** Splitting at [/] undoes joining with [/]. *)
Lemma split_join (l : list string) :
  l <> [] -> Forall segment l -> split "/" (join "/" l) = l.
Proof.
  destruct l as [|hd tl]; [congruence|]. intros _ H.
  unfold split. now rewrite split_go_join.
Qed.


Lemma normalize_fold (l acc : list string) :
  Forall plainSegment l ->
  fold_left
    (fun normalized part =>
       if String.eqb part ".." then removelast normalized
       else if negb (String.eqb part ".") then (normalized ++ [part])%list
       else normalized)
    l acc = (acc ++ l)%list.
Proof.
  revert acc. induction l as [|x l IH]; intros acc H.
  - now rewrite app_nil_r.
  - inversion H as [|? ? (_ & Hdot & Hdots) Hl]; subst. cbn [fold_left].
    apply String.eqb_neq in Hdot, Hdots. rewrite Hdot, Hdots. cbn [negb].
    rewrite IH by exact Hl. now rewrite <- app_assoc.
Qed.

(** The normalisation loop leaves plain pieces as they are. *)
Lemma normalizeParts_plain (l : list string) :
  Forall plainSegment l -> normalizeParts l = l.
Proof. intros H. unfold normalizeParts. now rewrite normalize_fold. Qed.

Lemma plain_segments (l : list string) :
  Forall plainSegment l -> Forall segment l.
Proof. apply Forall_impl. now intros s (H & _). Qed.





(** X20: a specifier [../xs] made of plain pieces is resolved without
    regard to the importing file: the candidates are built on [xs] itself,
    the leading [..] having nothing to pop. *)
Theorem parent_directory_import (xs : list string) (currentFile : string)
    (allFiles : list File.SourceFile) :
  Forall plainSegment xs -> xs <> [] ->
  resolveImportPaths ["../" ++ join "/" xs] currentFile allFiles =
  probe allFiles (join "/" xs).
Proof.
  intros Hxs Hne.
  unfold resolveImportPaths. cbn [flat_map]. rewrite app_nil_r.
  unfold resolveImport.
  change (isExternalDependency ("../" ++ join "/" xs)) with false.
  change (startsWith ("../" ++ join "/" xs) ".") with true.
  change (startsWith ("../" ++ join "/" xs) "./") with false.
  cbn iota.
  destruct xs as [|x xs]; [congruence|].
  change ("../" ++ join "/" (x :: xs)) with (join "/" (".." :: x :: xs)).
  rewrite split_join.
  2: discriminate.
  2: { constructor; [|now apply plain_segments].
       unfold segment; simpl; intuition discriminate. }
  change (normalizeParts (".." :: x :: xs)) with (normalizeParts (x :: xs)).
  rewrite normalizeParts_plain by exact Hxs. reflexivity.
Qed.

Lemma parent_directory_import_witness :
  resolveImportPaths ["../shared/types"] "src/lib/a.ts"
    [File.mkFile "src/shared/types.ts" EmptyString "ts";
     File.mkFile "shared/types.ts" EmptyString "ts"] =
  ["shared/types.ts"].
Proof.
  apply (@parent_directory_import ["shared"; "types"] "src/lib/a.ts"
           [File.mkFile "src/shared/types.ts" EmptyString "ts";
            File.mkFile "shared/types.ts" EmptyString "ts"]).
  - repeat constructor; unfold segment; simpl; intuition discriminate.
  - discriminate.
Defined.

End ResolveProofs.
